(** * User service: the request handlers of [app/routes/user.py]

    A shallow embedding of the six route handlers (register, login,
    get-by-id, update, delete, list-all), of the order in which the router
    registers them, and of the bearer-token gate they share.  The handlers
    run in a small state-and-exception monad over the database session: the
    table of user rows plus a journal of the data-layer calls and token
    issuances performed so far. *)

From Stdlib Require Import Ascii.
From stdpp Require Import base strings gmap list pretty.

(** ** Data model *)

(** The ORM class [User] (one row of the user table). *)
Module User.
Record t := mk {
    id : Z;
    username : string;
    email : string;
    password_hash : string
  }.

#[global] Instance eq_dec : EqDecision t.
Proof. solve_decision. Defined.

(** Assigning [db_user.username] and [db_user.email]. *)
Definition set_username (v : string) (u : t) : t :=
    mk (id u) v (email u) (password_hash u).
Definition set_email (v : string) (u : t) : t :=
    mk (id u) (username u) v (password_hash u).
End User.

(** The request body schema [UserCreate], read by the handlers through
    [user.username], [user.email] (and [user.password] by the service). *)
Module UserCreate.
Record t := mk {
    username : string;
    email : string;
    password : string
  }.
Definition set_password (v : string) (u : t) : t :=
    mk (username u) (email u) v.
End UserCreate.

(** The request body schema [UserLogin]. *)
Module UserLogin.
Record t := mk {
    username : string;
    password : string
  }.
End UserLogin.

(** Modelled from the spec: the response schema [UserOut]
    ([app/schemas/user.py] is not part of the sources).  The spec describes
    the record returned by get, update and list as the user record without
    its password: [{id, username, email}].  [from_orm] is what
    [response_model=UserOut] does to the ORM object a handler returns. *)
Module UserOut.
Record t := mk {
    id : Z;
    username : string;
    email : string
  }.

#[global] Instance eq_dec : EqDecision t.
Proof. solve_decision. Defined.

Definition from_orm (u : User.t) : t :=
    mk (User.id u) (User.username u) (User.email u).
End UserOut.

(** The response schema [UserResponse], with the four keyword arguments the
    register handler passes; [user] is the dict [user_data]. *)
Module UserResponse.
Record t := mk {
    access_token : string;
    token_type : string;
    message : string;
    user : gmap string string
  }.
End UserResponse.

(** Python's [str] on an [int]: decimal digits, with a leading minus sign
    for negative numbers. *)
Definition str (n : Z) : string := pretty n.

(** ** Exceptions *)

Inductive exn :=
  | HTTPException (status_code : Z) (detail : string)
  | KeyError (key : string)
  | IntegrityError
  | InvalidRequestError.

(** The status the framework answers with: an [HTTPException] carries its
    own, any other exception escaping a handler is a 500. *)
Definition status_of (e : exn) : Z :=
  match e with
  | HTTPException s _ => s
  | _ => 500
  end.

(** ** The session monad *)

(** What a handler did, in order: data-layer calls and token issuances. *)
Inductive event :=
  | QueryFirst (id : Z) (username : string)
  | QueryAll
  | Commit
  | Refresh (id : Z)
  | CreateUser (username : string)
  | Authenticate (username : string)
  | IssueToken (data : gmap string string).

Record Session := mkSession {
  rows : list User.t;
  trace : list event
}.

Inductive outcome (A : Type) :=
  | Return (a : A)
  | Raise (e : exn).
Arguments Return {A} a.
Arguments Raise {A} e.

Definition M (A : Type) : Type := Session → outcome A * Session.

Definition ret {A} (a : A) : M A := λ s, (Return a, s).
Definition raise {A} (e : exn) : M A := λ s, (Raise e, s).
Definition bind {A B} (m : M A) (k : A → M B) : M B :=
  λ s, match m s with
       | (Return a, s') => k a s'
       | (Raise e, s') => (Raise e, s')
       end.

Notation "'let*' x := m 'in' k" := (bind m (λ x, k))
  (at level 10, x name, m at level 100, k at level 200, only parsing).
Notation "m ;;; k" := (bind m (λ _, k))
  (at level 100, k at level 200, right associativity, only parsing).

Definition log (e : event) : M unit :=
  λ s, (Return tt, mkSession (rows s) (trace s ++ [e])).

(** ** Collaborators that are imported, not defined, by the routes *)

(** [app.auth.jwt_handler]: [decode_access_token] returns the payload dict,
    or [None]. *)
Class TokenCodec := {
  create_access_token : gmap string string → string;
  decode_access_token : string → option (gmap string string)
}.

(** [app.services.user_service].  [create_user(user, db)] either raises or
    returns the new row and leaves the table changed;
    [authenticate_user(db, username, password)] returns a row or nothing. *)
Class UserService := {
  create_user : UserCreate.t → list User.t → exn + (User.t * list User.t);
  authenticate_user : list User.t → string → string → option User.t
}.

(** The constraints the engine checks when a transaction commits (they are
    declared with the table, in [utils/models.py]). *)
Class Engine := {
  integrity : list User.t → bool
}.

(** The primary-key constraint on [User.id]. *)
Definition unique_ids (l : list User.t) : Prop := NoDup (User.id <$> l).

(** ** Data-layer primitives *)

(** The filter [User.id == id, User.username == sub]. *)
Definition owned_by (id : Z) (sub : string) (u : User.t) : bool :=
  bool_decide (User.id u = id) && bool_decide (User.username u = sub).

(** [db.query(User).filter(User.id == id, User.username == sub).first()] *)
Definition query_first (id : Z) (sub : string) : M (option User.t) :=
  log (QueryFirst id sub) ;;;
  λ s, (Return (find (owned_by id sub) (rows s)), s).

(** [db.query(User).all()] *)
Definition query_all : M (list User.t) :=
  log QueryAll ;;;
  λ s, (Return (rows s), s).

(** What the unit of work holds when [db.commit()] is called: an object
    whose [username] and [email] were assigned, or an object marked by
    [db.delete].  Both are flushed as a statement keyed by the primary
    key. *)
Inductive pending :=
  | Dirty (pk : Z) (username email : string)
  | Deleted (pk : Z).

Definition flush (p : pending) (l : list User.t) : list User.t :=
  match p with
  | Dirty pk n e =>
      (λ r, if bool_decide (User.id r = pk)
            then User.set_email e (User.set_username n r) else r) <$> l
  | Deleted pk =>
      filter (λ r, User.id r ≠ pk) l
  end.

Arguments flush : simpl never.

Section handlers.
Context {codec : TokenCodec} {service : UserService} {engine : Engine}.

(** [db.commit()]: the pending change becomes the table, unless the
    engine rejects it, in which case the table stays as it was. *)
Definition commit (p : pending) : M unit :=
    log Commit ;;;
    λ s, if integrity (flush p (rows s))
         then (Return tt, mkSession (flush p (rows s)) (trace s))
         else (Raise IntegrityError, s).

(** [db.refresh(obj)]: reload the row with the object's primary key. *)
Definition refresh (pk : Z) : M User.t :=
    log (Refresh pk) ;;;
    λ s, match find (λ r, bool_decide (User.id r = pk)) (rows s) with
         | Some r => (Return r, s)
         | None => (Raise InvalidRequestError, s)
         end.

(** [create_access_token(data=...)] *)
Definition issue (data : gmap string string) : M string :=
    log (IssueToken data) ;;;
    ret (create_access_token data).

(** [payload[key]] on the decoded dict. *)
Definition subscript (payload : gmap string string) (key : string) : M string :=
    match payload !! key with
    | Some v => ret v
    | None => raise (KeyError key)
    end.

(** [Depends(oauth2_scheme)]: the bearer credential of the Authorization
    header; a request without one is answered 401 before the handler
    body runs. *)
Definition oauth2_scheme (authorization : option string) : M string :=
    match authorization with
    | Some token => ret token
    | None => raise (HTTPException 401 "Not authenticated")
    end.

(** Python truthiness of the decoded payload: [None] and the empty dict
    are falsy. *)
Definition truthy (payload : option (gmap string string)) : bool :=
    match payload with
    | Some p => negb (bool_decide (p = ∅))
    | None => false
    end.

Definition get_current_user (token : string) : M (gmap string string) :=
    match decode_access_token token with
    | Some payload =>
        if truthy (Some payload) then ret payload
        else raise (HTTPException 401 "Invalid authentication credentials")
    | None => raise (HTTPException 401 "Invalid authentication credentials")
    end.

Definition register (user : UserCreate.t) (authorization : option string)
    : M UserResponse.t :=
    let* token := oauth2_scheme authorization in
    let* current_user := get_current_user token in
    let* db_user :=
      (log (CreateUser (UserCreate.username user)) ;;;
       λ s, match create_user user (rows s) with
            | inr (u, l) => (Return u, mkSession l (trace s))
            | inl e => (Raise e, s)
            end) in
    let* access_token := issue {[ "sub" := User.username db_user ]} in
    let user_data : gmap string string :=
      <[ "id" := str (User.id db_user) ]>
      (<[ "username" := User.username db_user ]>
       {[ "email" := User.email db_user ]}) in
    ret (UserResponse.mk access_token "bearer" "User registered successfully" user_data).

Definition login (user : UserLogin.t) : M (gmap string string) :=
    let* db_user :=
      (log (Authenticate (UserLogin.username user)) ;;;
       λ s, (Return (authenticate_user (rows s) (UserLogin.username user)
                       (UserLogin.password user)), s)) in
    match db_user with
    | None => raise (HTTPException 401 "Invalid credentials")
    | Some db_user =>
        let* access_token := issue {[ "sub" := User.username db_user ]} in
        ret (<[ "access_token" := access_token ]> {[ "token_type" := "bearer" ]})
    end.

Definition read_users_me (id : Z) (authorization : option string) : M UserOut.t :=
    let* token := oauth2_scheme authorization in
    let* current_user := get_current_user token in
    let* sub := subscript current_user "sub" in
    let* user := query_first id sub in
    match user with
    | None => raise (HTTPException 404 "User not found")
    | Some user => ret (UserOut.from_orm user)
    end.

Definition update_user (id : Z) (user : UserCreate.t) (authorization : option string)
    : M UserOut.t :=
    let* token := oauth2_scheme authorization in
    let* current_user := get_current_user token in
    let* sub := subscript current_user "sub" in
    let* db_user := query_first id sub in
    match db_user with
    | None => raise (HTTPException 404 "User not found")
    | Some db_user =>
        commit (Dirty (User.id db_user) (UserCreate.username user) (UserCreate.email user)) ;;;
        let* db_user := refresh (User.id db_user) in
        ret (UserOut.from_orm db_user)
    end.

Definition delete_user_me (id : Z) (authorization : option string)
    : M (gmap string string) :=
    let* token := oauth2_scheme authorization in
    let* current_user := get_current_user token in
    let* sub := subscript current_user "sub" in
    let* db_user := query_first id sub in
    match db_user with
    | None => raise (HTTPException 404 "User not found")
    | Some db_user =>
        commit (Deleted (User.id db_user)) ;;;
        ret {[ "message" := "User deleted successfully" ]}
    end.

Definition read_users_all (authorization : option string) : M (list UserOut.t) :=
    let* token := oauth2_scheme authorization in
    let* current_user := get_current_user token in
    let* users := query_all in
    ret (UserOut.from_orm <$> users).

(** Whether the bearer credential of a request passes verification. *)
Definition verified (authorization : option string) : bool :=
  match authorization with
  | Some token => truthy (decode_access_token token)
  | None => false
  end.

(** The three handlers that look a row up by id agree up to that point:
    they read the subject of the token and run the owner query. *)
Definition fetch_owned (id : Z) (authorization : option string) : M (option User.t) :=
  let* token := oauth2_scheme authorization in
  let* current_user := get_current_user token in
  let* sub := subscript current_user "sub" in
  query_first id sub.

(** The success payloads of register and login, written as functions of
    what they are built from: a record's id, username and email, and the
    token issued for a username. *)
Definition register_payload (id : Z) (username email : string) : UserResponse.t :=
    UserResponse.mk (create_access_token {[ "sub" := username ]}) "bearer"
      "User registered successfully"
      (<[ "id" := str id ]> (<[ "username" := username ]> {[ "email" := email ]})).

Definition login_payload (username : string) : gmap string string :=
    <[ "access_token" := create_access_token {[ "sub" := username ]} ]>
      {[ "token_type" := "bearer" ]}.

End handlers.

(** The success payload of delete. *)
Definition deleted_payload : gmap string string :=
  {[ "message" := "User deleted successfully" ]}.

(** A row without its password hash. *)
Definition public (U : User.t) : Z * string * string :=
  (User.id U, User.username U, User.email U).

(** ** Serialisation of the responses *)

(** The JSON documents the framework sends back. *)
#[local] Set Warnings "-register-all".
Inductive json :=
  | JNum (n : Z)
  | JStr (s : string)
  | JArr (items : list json)
  | JObj (fields : list (string * json)).

(** Every object key occurring in a document, at any depth. *)
Fixpoint keys (j : json) : list string :=
  match j with
  | JNum _ | JStr _ => []
  | JArr items =>
      (fix go (l : list json) : list string :=
         match l with
         | [] => []
         | x :: l => keys x ++ go l
         end) items
  | JObj fields =>
      (fix go (l : list (string * json)) : list string :=
         match l with
         | [] => []
         | (k, v) :: l => k :: keys v ++ go l
         end) fields
  end.

(** Member access on an object. *)
Definition field (k : string) (j : json) : option json :=
  match j with
  | JObj fields => (list_to_map fields : gmap string json) !! k
  | _ => None
  end.

Definition json_of_dict (d : gmap string string) : json :=
  JObj (prod_map id JStr <$> map_to_list d).

Definition json_of_UserOut (u : UserOut.t) : json :=
  JObj [("id", JNum (UserOut.id u));
        ("username", JStr (UserOut.username u));
        ("email", JStr (UserOut.email u))].

Definition json_of_UserResponse (r : UserResponse.t) : json :=
  JObj [("access_token", JStr (UserResponse.access_token r));
        ("token_type", JStr (UserResponse.token_type r));
        ("message", JStr (UserResponse.message r));
        ("user", json_of_dict (UserResponse.user r))].

(** A document that nowhere has a member named after the password. *)
Definition password_free (j : json) : Prop :=
  ("password_hash" ∉ keys j) ∧ ("password" ∉ keys j).

(** ** The router *)

(** The methods a client may send; the decorators of this module register
    GET, POST, PUT and DELETE. *)
Inductive http_method := GET | HEAD | POST | PUT | DELETE.

#[global] Instance http_method_eq_dec : EqDecision http_method.
Proof. solve_decision. Defined.

(** A path template is a sequence of segments: literal text, or a
    parameter in braces, which matches any non-empty segment. *)
Inductive segment :=
  | Lit (text : string)
  | Param (name : string).

Inductive endpoint :=
  | ep_register
  | ep_login
  | ep_read_users_me
  | ep_update_user
  | ep_delete_user_me
  | ep_read_users_all.

#[global] Instance endpoint_eq_dec : EqDecision endpoint.
Proof. solve_decision. Defined.

Record route := mkRoute {
  route_method : http_method;
  route_path : list segment;
  route_endpoint : endpoint
}.

(** The decorators of the module, in the order they are executed.  Paths
    are relative to the prefix [/users]. *)
Definition router : list route :=
  [ mkRoute POST [Lit "register"] ep_register;
    mkRoute POST [Lit "login"] ep_login;
    mkRoute GET [Param "id"] ep_read_users_me;
    mkRoute PUT [Param "id"] ep_update_user;
    mkRoute DELETE [Param "id"] ep_delete_user_me;
    mkRoute GET [Lit "all"] ep_read_users_all ].

Definition segment_matches (t : segment) (s : string) : bool :=
  match t with
  | Lit text => bool_decide (text = s)
  | Param _ => negb (bool_decide (s = ""))
  end.

Fixpoint path_matches (t : list segment) (p : list string) : bool :=
  match t, p with
  | [], [] => true
  | x :: t, s :: p => segment_matches x s && path_matches t p
  | _, _ => false
  end.

(** A route answers the one method of its decorator. *)
Definition route_matches (m : http_method) (p : list string) (r : route) : bool :=
  bool_decide (route_method r = m) && path_matches (route_path r) p.

(** A request goes to the first registered route that matches it. *)
Definition dispatch (m : http_method) (p : list string) : option endpoint :=
  route_endpoint <$> find (route_matches m p) router.

(** Conversion of a path parameter annotated [int], on plain decimal
    numerals: an optional sign followed by one or more decimal digits.  The
    framework's validator also takes other spellings of a number (blanks
    around it, digit separators); the properties below use the conversion
    only on text without any digit and on the output of [str], where the
    spellings play no part. *)
Definition digit_of (c : ascii) : option Z :=
  let n := Z.of_N (N_of_ascii c) in
  if bool_decide (48 ≤ n ≤ 57)%Z then Some (n - 48)%Z else None.

Fixpoint digits_to_Z (acc : Z) (s : string) : option Z :=
  match s with
  | EmptyString => Some acc
  | String c s =>
      match digit_of c with
      | Some d => digits_to_Z (10 * acc + d)%Z s
      | None => None
      end
  end.

Definition int_of_segment (s : string) : option Z :=
  match s with
  | EmptyString => None
  | String "-"%char (String c r) => Z.opp <$> digits_to_Z 0 (String c r)
  | String "+"%char (String c r) => digits_to_Z 0 (String c r)
  | _ => digits_to_Z 0 s
  end.

(** ** The user service, as the spec describes it *)

(** Modelled from the spec: [create_user] of [app/services/user_service.py],
    which is not part of the sources.  The spec: it hashes the password and
    persists a new record, whose id the store assigns; it fails with
    Conflict (a 409) when the username already exists. *)
Definition create_user_spec (hash_password : string → string)
    (next_id : list User.t → Z) (user : UserCreate.t) (l : list User.t)
  : exn + (User.t * list User.t) :=
  if bool_decide (UserCreate.username user ∈ User.username <$> l)
  then inl (HTTPException 409 "Conflict")
  else
    let db_user := User.mk (next_id l) (UserCreate.username user)
                     (UserCreate.email user)
                     (hash_password (UserCreate.password user)) in
    inr (db_user, l ++ [db_user]).

Definition spec_service (hash_password : string → string)
    (next_id : list User.t → Z)
    (authenticate : list User.t → string → string → option User.t)
  : UserService := {|
  create_user := create_user_spec hash_password next_id;
  authenticate_user := authenticate
|}.

(** ** Sample data *)

Module Sample.

(** A codec that keeps the subject in the clear behind a fixed prefix. *)
Definition codec : TokenCodec := {|
  create_access_token data := "tok:" +:+ default "" (data !! "sub");
  decode_access_token token :=
    match token with
    | String "t"%char (String "o"%char (String "k"%char (String ":"%char sub))) =>
        Some {[ "sub" := sub ]}
    | _ => None
    end
|}.

Definition hash_password (p : string) : string := "h(" +:+ p +:+ ")".

Definition next_id (l : list User.t) : Z :=
  (1 + foldr Z.max 0 (User.id <$> l))%Z.

Definition authenticate (l : list User.t) (u p : string) : option User.t :=
  find (λ r, bool_decide (User.username r = u)
             && bool_decide (User.password_hash r = hash_password p)) l.

Definition service : UserService :=
  spec_service hash_password next_id authenticate.

Definition engine : Engine := {| integrity _ := true |}.

Definition alice : User.t := User.mk 1 "alice" "a@x.com" "h(p1)".
Definition bob : User.t := User.mk 2 "bob" "b@x.com" "h(p2)".
Definition db : Session := mkSession [alice; bob] [].

(** A codec whose only token verifies but names no subject. *)
Definition anonymous_codec : TokenCodec := {|
  create_access_token _ := "anon";
  decode_access_token token :=
    if bool_decide (token = "anon") then Some {[ "exp" := "0" ]} else None
|}.

End Sample.

(** * Properties *)

(** ** Lemmas on the table and its queries *)

Lemma find_owned_Some (l : list User.t) (id : Z) (sub : string) (u : User.t) :
  find (owned_by id sub) l = Some u →
  u ∈ l ∧ User.id u = id ∧ User.username u = sub.
Proof.
  intros Hf. apply find_some in Hf as [Hin Hp].
  unfold owned_by in Hp. apply andb_prop in Hp as [Hi Hn].
  apply bool_decide_eq_true in Hi, Hn.
  by rewrite list_elem_of_In.
Qed.

Lemma find_owned_None (l : list User.t) (id : Z) (sub : string) :
  find (owned_by id sub) l = None →
  ∀ u, u ∈ l → User.id u = id → User.username u ≠ sub.
Proof.
  intros Hf u Hin Hid Hname.
  assert (owned_by id sub u = false) as Hp.
  { apply (find_none _ _ Hf u). by apply list_elem_of_In. }
  unfold owned_by in Hp. by rewrite !bool_decide_eq_true_2 in Hp.
Qed.

(** Under the primary-key constraint an id names at most one row. *)
Lemma unique_ids_inj (l : list User.t) (u v : User.t) :
  unique_ids l → u ∈ l → v ∈ l → User.id u = User.id v → u = v.
Proof.
  unfold unique_ids. induction l as [|r l IH]; intros Hnd Hu Hv Heq.
  - by apply elem_of_nil in Hu.
  - rewrite fmap_cons in Hnd. apply NoDup_cons in Hnd as [Hr Hnd].
    apply elem_of_cons in Hu as [->|Hu]; apply elem_of_cons in Hv as [->|Hv];
      try done.
    + exfalso. apply Hr. rewrite Heq. by apply list_elem_of_fmap_2.
    + exfalso. apply Hr. rewrite <- Heq. by apply list_elem_of_fmap_2.
    + by apply IH.
Qed.

Lemma find_foreign_None (l : list User.t) (U : User.t) (sub : string) :
  unique_ids l → U ∈ l → sub ≠ User.username U →
  find (owned_by (User.id U) sub) l = None.
Proof.
  intros Hnd HU Hne.
  destruct (find (owned_by (User.id U) sub) l) as [v|] eqn:Hf; [|done].
  apply find_owned_Some in Hf as (Hv & Hid & Hname).
  assert (v = U) as -> by by apply (unique_ids_inj l).
  by destruct Hne.
Qed.

(** ** Lemmas on flushing *)

(** On a table with unique ids, the UPDATE keyed by [U]'s id rewrites the
    one position where [U] sits. *)
Lemma flush_dirty_insert (l : list User.t) (i : nat) (U : User.t) (n e : string) :
  unique_ids l → l !! i = Some U →
  flush (Dirty (User.id U) n e) l
  = <[ i := User.mk (User.id U) n e (User.password_hash U) ]> l.
Proof.
  unfold unique_ids, flush. revert i.
  induction l as [|r l IH]; intros i Hnd Hi; [done|].
  rewrite fmap_cons in Hnd. apply NoDup_cons in Hnd as [Hr Hnd].
  destruct i as [|i]; simpl in *.
  - injection Hi as ->. rewrite bool_decide_eq_true_2 by done.
    f_equal. apply list_eq. intros j. rewrite list_lookup_fmap.
    destruct (l !! j) as [v|] eqn:Hj; [|done]. simpl.
    rewrite bool_decide_eq_false_2; [done|].
    intros Heq. apply Hr. rewrite <- Heq.
    apply list_elem_of_fmap_2, list_elem_of_lookup. by exists j.
  - rewrite bool_decide_eq_false_2.
    + f_equal. by apply IH.
    + intros Heq. apply Hr. rewrite Heq.
      apply list_elem_of_fmap_2, list_elem_of_lookup. by exists i.
Qed.

(** Reloading by primary key after the UPDATE finds the rewritten row. *)
Lemma find_pk_flush_dirty (l : list User.t) (pk : Z) (n e : string) :
  find (λ r, bool_decide (User.id r = pk)) (flush (Dirty pk n e) l)
  = (λ r, User.set_email e (User.set_username n r))
      <$> find (λ r, bool_decide (User.id r = pk)) l.
Proof.
  unfold flush. induction l as [|r l IH]; [done|]. simpl.
  destruct (bool_decide (User.id r = pk)) eqn:Hb; simpl; rewrite Hb; [done|].
  exact IH.
Qed.

(** After the DELETE keyed by an id, the owner query at that id is empty. *)
Lemma find_owned_after_delete (l : list User.t) (pk : Z) (sub : string) :
  find (owned_by pk sub) (flush (Deleted pk) l) = None.
Proof.
  destruct (find _ _) as [u|] eqn:Hf; [|done].
  apply find_owned_Some in Hf as (Hin & Hid & _).
  unfold flush in Hin. apply list_elem_of_filter in Hin as [Hne _]. done.
Qed.


(** The UPDATE leaves every id in place. *)
Lemma flush_dirty_ids (l : list User.t) (pk : Z) (n e : string) :
  User.id <$> flush (Dirty pk n e) l = User.id <$> l.
Proof.
  unfold flush. induction l as [|r l IH]; [done|].
  rewrite !fmap_cons, IH. by destruct (bool_decide (User.id r = pk)).
Qed.

(** Flushing keeps the primary key unique. *)
Lemma flush_keeps_unique_ids (p : pending) (l : list User.t) :
  unique_ids l → unique_ids (flush p l).
Proof.
  unfold unique_ids. destruct p as [pk n e|pk].
  - by rewrite flush_dirty_ids.
  - unfold flush. induction l as [|r l IH]; [done|].
    rewrite fmap_cons, NoDup_cons. intros [Hr Hnd].
    rewrite filter_cons. destruct (decide (User.id r ≠ pk)); [|by apply IH].
    rewrite fmap_cons, NoDup_cons. split; [|by apply IH].
    intros Hin. apply Hr.
    apply list_elem_of_fmap in Hin as (v & -> & Hv).
    apply list_elem_of_filter in Hv as [_ Hv]. by apply list_elem_of_fmap_2.
Qed.

Lemma filter_absent_id (l : list User.t) (pk : Z) :
  pk ∉ User.id <$> l → filter (λ r, User.id r ≠ pk) l = l.
Proof.
  induction l as [|r l IH]; [done|].
  rewrite fmap_cons, not_elem_of_cons. intros [Hne Hl].
  rewrite filter_cons, decide_True by done. f_equal. by apply IH.
Qed.

(** On a table with unique ids, the DELETE keyed by [U]'s id removes the
    one position where [U] sits. *)
Lemma flush_deleted_delete (l : list User.t) (i : nat) (U : User.t) :
  unique_ids l → l !! i = Some U →
  flush (Deleted (User.id U)) l = delete i l.
Proof.
  unfold unique_ids, flush. revert i.
  induction l as [|r l IH]; intros i Hnd Hi; [done|].
  rewrite fmap_cons in Hnd. apply NoDup_cons in Hnd as [Hr Hnd].
  rewrite filter_cons. destruct i as [|i]; simpl in *.
  - injection Hi as ->. rewrite decide_False by (intros Hne; by apply Hne).
    by apply filter_absent_id.
  - rewrite decide_True.
    + f_equal. by apply IH.
    + intros Heq. apply Hr. rewrite Heq.
      apply list_elem_of_fmap_2, list_elem_of_lookup. by exists i.
Qed.

(** No row with the deleted id is left. *)
Lemma flush_deleted_gone (l : list User.t) (pk : Z) (u : User.t) :
  u ∈ flush (Deleted pk) l → User.id u ≠ pk ∧ u ∈ l.
Proof. unfold flush. by intros ?%list_elem_of_filter. Qed.

(** ** Lemmas on the serialisation *)

Lemma keys_json_of_dict (d : gmap string string) :
  keys (json_of_dict d) = (map_to_list d).*1.
Proof.
  unfold json_of_dict. induction (map_to_list d) as [|[k v] l IH]; [done|].
  simpl in *. f_equal. exact IH.
Qed.

Lemma elem_of_keys_dict (d : gmap string string) (k : string) :
  k ∈ keys (json_of_dict d) → is_Some (d !! k).
Proof.
  rewrite keys_json_of_dict. intros Hk.
  apply list_elem_of_fmap in Hk as ([k' v] & -> & Hin).
  apply elem_of_map_to_list in Hin. by exists v.
Qed.

Lemma field_json_of_dict (d : gmap string string) (k : string) :
  field k (json_of_dict d) = JStr <$> d !! k.
Proof.
  unfold field, json_of_dict.
  by rewrite list_to_map_fmap, list_to_map_to_list, lookup_fmap.
Qed.

Lemma field_user_of_UserResponse (r : UserResponse.t) :
  field "user" (json_of_UserResponse r) = Some (json_of_dict (UserResponse.user r)).
Proof.
  unfold field, json_of_UserResponse.
  rewrite !list_to_map_cons.
  rewrite !lookup_insert_ne by done. by rewrite lookup_insert_eq.
Qed.

Lemma keys_UserOut_list (l : list UserOut.t) (k : string) :
  k ∈ keys (JArr (json_of_UserOut <$> l)) →
  k = "id" ∨ k = "username" ∨ k = "email".
Proof.
  induction l as [|o l IH]; simpl.
  - by intros ?%elem_of_nil.
  - rewrite !elem_of_cons. intros [?|[?|[?|Hk]]]; eauto.
Qed.


Lemma dict_password_free (d : gmap string string) :
  d !! "password_hash" = None → d !! "password" = None →
  password_free (json_of_dict d).
Proof.
  intros H1 H2. split; intros [v Hv]%elem_of_keys_dict; congruence.
Qed.

Lemma UserOut_password_free (o : UserOut.t) : password_free (json_of_UserOut o).
Proof.
  split; simpl; intros Hk;
    repeat (apply elem_of_cons in Hk as [Hk|Hk]; [done|]);
    by apply elem_of_nil in Hk.
Qed.

Lemma keys_UserResponse (r : UserResponse.t) :
  keys (json_of_UserResponse r)
  = ["access_token"; "token_type"; "message"; "user"]
    ++ keys (json_of_dict (UserResponse.user r)).
Proof.
  unfold json_of_UserResponse. simpl. by rewrite app_nil_r.
Qed.

Lemma UserResponse_password_free (r : UserResponse.t) :
  UserResponse.user r !! "password_hash" = None →
  UserResponse.user r !! "password" = None →
  password_free (json_of_UserResponse r).
Proof.
  intros H1 H2. destruct (dict_password_free _ H1 H2) as [Ha Hb].
  split; rewrite keys_UserResponse; intros [Hk|Hk]%elem_of_app; try done;
    repeat (apply elem_of_cons in Hk as [Hk|Hk]; [done|]);
    by apply elem_of_nil in Hk.
Qed.

(** ** Lemmas on the router *)

Lemma list_all_shadowed (m : http_method) (p : list string) :
  route_matches m p (mkRoute GET [Lit "all"] ep_read_users_all) = true →
  route_matches m p (mkRoute GET [Param "id"] ep_read_users_me) = true.
Proof.
  unfold route_matches; simpl.
  intros [Hm Hp]%andb_prop. rewrite Hm; simpl.
  destruct p as [|seg [|]]; simpl in *; try done.
  - rewrite andb_true_r in *. apply bool_decide_eq_true in Hp as <-. done.
  - by rewrite andb_false_r in Hp.
Qed.


(** ** Lemmas on the public part of a row *)

Lemma from_orm_public (U V : User.t) :
  public U = public V → UserOut.from_orm U = UserOut.from_orm V.
Proof. unfold public, UserOut.from_orm. by intros [= -> -> ->]. Qed.

Lemma owned_by_public (id : Z) (sub : string) (U V : User.t) :
  public U = public V → owned_by id sub U = owned_by id sub V.
Proof. unfold public, owned_by. by intros [= -> -> _]. Qed.

(** The owner query sees the password hashes neither in its filter nor in
    what it hands over to the response model. *)
Lemma find_owned_public (l1 l2 : list User.t) (id : Z) (sub : string) :
  public <$> l1 = public <$> l2 →
  UserOut.from_orm <$> find (owned_by id sub) l1
  = UserOut.from_orm <$> find (owned_by id sub) l2.
Proof.
  revert l2. induction l1 as [|U l1 IH]; intros [|V l2] Hpub; try done.
  rewrite !fmap_cons in Hpub. apply (inj2 cons) in Hpub as [HUV Hl]. simpl.
  rewrite (owned_by_public id sub U V HUV).
  destruct (owned_by id sub V); [|by apply IH].
  simpl. f_equal. by apply from_orm_public.
Qed.

Lemma from_orm_fmap_public (l1 l2 : list User.t) :
  public <$> l1 = public <$> l2 →
  UserOut.from_orm <$> l1 = UserOut.from_orm <$> l2.
Proof.
  revert l2. induction l1 as [|U l1 IH]; intros [|V l2] Hpub; try done.
  rewrite !fmap_cons in Hpub. apply (inj2 cons) in Hpub as [HUV Hl].
  rewrite !fmap_cons. f_equal; [by apply from_orm_public | by apply IH].
Qed.


Section properties.
Context {codec : TokenCodec} {service : UserService} {engine : Engine}.

(** ** The token gate *)

Lemma truthy_sub (payload : gmap string string) (sub : string) :
  payload !! "sub" = Some sub → truthy (Some payload) = true.
Proof.
  intros Hs. simpl. rewrite bool_decide_eq_false_2; [done|].
  intros ->. by rewrite lookup_empty in Hs.
Qed.

Lemma get_current_user_valid (token : string) (payload : gmap string string) (s : Session) :
  decode_access_token token = Some payload →
  truthy (Some payload) = true →
  get_current_user token s = (Return payload, s).
Proof.
  intros Hd Ht. unfold get_current_user. rewrite Hd, Ht. done.
Qed.

Lemma get_current_user_invalid (token : string) (s : Session) :
  truthy (decode_access_token token) = false →
  get_current_user token s =
    (Raise (HTTPException 401 "Invalid authentication credentials"), s).
Proof.
  intros Ht. unfold get_current_user.
  destruct (decode_access_token token) as [p|]; [|done].
  by rewrite Ht.
Qed.

Lemma fetch_owned_valid (id : Z) (token : string) (payload : gmap string string)
    (sub : string) (s : Session) :
  decode_access_token token = Some payload →
  payload !! "sub" = Some sub →
  fetch_owned id (Some token) s =
    (Return (find (owned_by id sub) (rows s)),
     mkSession (rows s) (trace s ++ [QueryFirst id sub])).
Proof.
  intros Hd Hs. unfold fetch_owned, bind, oauth2_scheme, ret.
  rewrite (get_current_user_valid _ _ _ Hd (truthy_sub _ _ Hs)).
  unfold subscript. rewrite Hs. done.
Qed.

Lemma fetch_owned_inv (id : Z) (a : option string) (s : Session)
    (r : option User.t) (s' : Session) :
  fetch_owned id a s = (Return r, s') →
  ∃ token payload sub,
    a = Some token
    ∧ decode_access_token token = Some payload
    ∧ payload !! "sub" = Some sub
    ∧ r = find (owned_by id sub) (rows s)
    ∧ s' = mkSession (rows s) (trace s ++ [QueryFirst id sub]).
Proof.
  unfold fetch_owned, bind, oauth2_scheme, ret, raise.
  destruct a as [token|]; [|done].
  unfold get_current_user.
  destruct (decode_access_token token) as [p|] eqn:Hd; [|done].
  destruct (truthy (Some p)); [|done].
  unfold subscript, ret, raise.
  destruct (p !! "sub") as [sub|] eqn:Hs; [|done].
  unfold query_first, bind, log; simpl.
  intros [= <- <-]. by exists token, p, sub.
Qed.

Lemma read_users_me_fetch (id : Z) (a : option string) (s : Session) :
  read_users_me id a s =
    match fetch_owned id a s with
    | (Return (Some user), s') => (Return (UserOut.from_orm user), s')
    | (Return None, s') => (Raise (HTTPException 404 "User not found"), s')
    | (Raise e, s') => (Raise e, s')
    end.
Proof.
  unfold read_users_me, fetch_owned, bind.
  destruct (oauth2_scheme a s) as [[token|e] s1]; [|done].
  destruct (get_current_user token s1) as [[cu|e] s2]; [|done].
  destruct (subscript cu "sub" s2) as [[sub|e] s3]; [|done].
  destruct (query_first id sub s3) as [[[u|]|e] s4]; done.
Qed.

Lemma update_user_fetch (id : Z) (user : UserCreate.t) (a : option string) (s : Session) :
  update_user id user a s =
    match fetch_owned id a s with
    | (Return (Some db_user), s') =>
        (commit (Dirty (User.id db_user) (UserCreate.username user)
                   (UserCreate.email user)) ;;;
         let* db_user := refresh (User.id db_user) in
         ret (UserOut.from_orm db_user)) s'
    | (Return None, s') => (Raise (HTTPException 404 "User not found"), s')
    | (Raise e, s') => (Raise e, s')
    end.
Proof.
  unfold update_user, fetch_owned, bind.
  destruct (oauth2_scheme a s) as [[token|e] s1]; [|done].
  destruct (get_current_user token s1) as [[cu|e] s2]; [|done].
  destruct (subscript cu "sub" s2) as [[sub|e] s3]; [|done].
  destruct (query_first id sub s3) as [[[u|]|e] s4]; done.
Qed.

Lemma delete_user_me_fetch (id : Z) (a : option string) (s : Session) :
  delete_user_me id a s =
    match fetch_owned id a s with
    | (Return (Some db_user), s') =>
        (commit (Deleted (User.id db_user)) ;;;
         ret {[ "message" := "User deleted successfully" ]}) s'
    | (Return None, s') => (Raise (HTTPException 404 "User not found"), s')
    | (Raise e, s') => (Raise e, s')
    end.
Proof.
  unfold delete_user_me, fetch_owned, bind.
  destruct (oauth2_scheme a s) as [[token|e] s1]; [|done].
  destruct (get_current_user token s1) as [[cu|e] s2]; [|done].
  destruct (subscript cu "sub" s2) as [[sub|e] s3]; [|done].
  destruct (query_first id sub s3) as [[[u|]|e] s4]; done.
Qed.

(** The tail of update after the owner query, run on a session. *)
Lemma update_tail_run (pk : Z) (n e : string) (s : Session) :
  (commit (Dirty pk n e) ;;;
   let* db_user := refresh pk in
   ret (UserOut.from_orm db_user)) s
  = let l := flush (Dirty pk n e) (rows s) in
    if integrity l then
      match find (λ r, bool_decide (User.id r = pk)) l with
      | Some r => (Return (UserOut.from_orm r),
                   mkSession l (trace s ++ [Commit; Refresh pk]))
      | None => (Raise InvalidRequestError,
                 mkSession l (trace s ++ [Commit; Refresh pk]))
      end
    else (Raise IntegrityError, mkSession (rows s) (trace s ++ [Commit])).
Proof.
  unfold bind, commit, refresh, bind, log, ret; simpl.
  destruct (integrity _); [|done]. simpl.
  destruct (find _ _); by rewrite <- app_assoc.
Qed.

(** The tail of delete after the owner query, run on a session. *)
Lemma delete_tail_run (pk : Z) (s : Session) :
  (commit (Deleted pk) ;;;
   ret ({[ "message" := "User deleted successfully" ]} : gmap string string)) s
  = let l := flush (Deleted pk) (rows s) in
    if integrity l then
      (Return {[ "message" := "User deleted successfully" ]},
       mkSession l (trace s ++ [Commit]))
    else (Raise IntegrityError, mkSession (rows s) (trace s ++ [Commit])).
Proof.
  unfold bind, commit, bind, log, ret; simpl.
  by destruct (integrity _).
Qed.

(** What a successful register did. *)
Lemma register_inv (user : UserCreate.t) (a : option string) (s : Session)
    (out : UserResponse.t) (s' : Session) :
  register user a s = (Return out, s') →
  ∃ token db_user l,
    a = Some token
    ∧ truthy (decode_access_token token) = true
    ∧ create_user user (rows s) = inr (db_user, l)
    ∧ out = UserResponse.mk
              (create_access_token {[ "sub" := User.username db_user ]})
              "bearer" "User registered successfully"
              (<[ "id" := str (User.id db_user) ]>
                 (<[ "username" := User.username db_user ]>
                    {[ "email" := User.email db_user ]}))
    ∧ s' = mkSession l
             (trace s ++ [CreateUser (UserCreate.username user);
                          IssueToken {[ "sub" := User.username db_user ]}]).
Proof.
  unfold register, bind, oauth2_scheme, ret, raise.
  destruct a as [token|]; [|done].
  unfold get_current_user.
  destruct (decode_access_token token) as [p|] eqn:Hd; [|done].
  destruct (truthy (Some p)) eqn:Ht; [|done].
  unfold log; simpl.
  destruct (create_user user (rows s)) as [e|[db_user l]] eqn:Hc; [done|].
  unfold issue, bind, log, ret; simpl.
  intros [= <- <-]. exists token, db_user, l.
  rewrite Hd, <- app_assoc. done.
Qed.


(** ** Ownership *)

(** C1.  With a valid token for subject [sub]: for every stored record [U]
    whose username differs from [sub], get-by-id, update and delete at
    [U]'s id fail with 404 "User not found" and leave every row as it was
    ([unique_ids] is the primary-key constraint of the table); and whenever
    one of the three handlers succeeds at an id, the table holds a record
    with that id whose username is the token's subject. *)
Theorem ownership_rule (s : Session) (token : string)
    (payload : gmap string string) (sub : string) :
  decode_access_token token = Some payload →
  payload !! "sub" = Some sub →
  (∀ U : User.t,
     unique_ids (rows s) → U ∈ rows s → sub ≠ User.username U →
     let s' := mkSession (rows s) (trace s ++ [QueryFirst (User.id U) sub]) in
     read_users_me (User.id U) (Some token) s
       = (Raise (HTTPException 404 "User not found"), s')
     ∧ (∀ body, update_user (User.id U) body (Some token) s
                = (Raise (HTTPException 404 "User not found"), s'))
     ∧ delete_user_me (User.id U) (Some token) s
       = (Raise (HTTPException 404 "User not found"), s'))
  ∧ (∀ id : Z,
       (∀ out s', read_users_me id (Some token) s = (Return out, s') →
          ∃ U, U ∈ rows s ∧ User.id U = id ∧ User.username U = sub
               ∧ out = UserOut.from_orm U)
       ∧ (∀ body out s', update_user id body (Some token) s = (Return out, s') →
            ∃ U, U ∈ rows s ∧ User.id U = id ∧ User.username U = sub)
       ∧ (∀ out s', delete_user_me id (Some token) s = (Return out, s') →
            ∃ U, U ∈ rows s ∧ User.id U = id ∧ User.username U = sub)).
Proof.
  intros Hd Hs. split.
  - intros U Hnd HU Hne s'.
    pose proof (find_foreign_None _ _ _ Hnd HU Hne) as Hf.
    repeat split; [|intros body|].
    + rewrite read_users_me_fetch, (fetch_owned_valid _ _ _ _ _ Hd Hs), Hf. done.
    + rewrite update_user_fetch, (fetch_owned_valid _ _ _ _ _ Hd Hs), Hf. done.
    + rewrite delete_user_me_fetch, (fetch_owned_valid _ _ _ _ _ Hd Hs), Hf. done.
  - intros id. repeat split.
    + intros out s'. rewrite read_users_me_fetch, (fetch_owned_valid _ _ _ _ _ Hd Hs).
      destruct (find (owned_by id sub) (rows s)) as [u|] eqn:Hf; [|done].
      intros [= <- _]. apply find_owned_Some in Hf as (? & ? & ?). by exists u.
    + intros body out s'. rewrite update_user_fetch, (fetch_owned_valid _ _ _ _ _ Hd Hs).
      destruct (find (owned_by id sub) (rows s)) as [u|] eqn:Hf; [|done].
      intros _. apply find_owned_Some in Hf as (? & ? & ?). by exists u.
    + intros out s'. rewrite delete_user_me_fetch, (fetch_owned_valid _ _ _ _ _ Hd Hs).
      destruct (find (owned_by id sub) (rows s)) as [u|] eqn:Hf; [|done].
      intros _. apply find_owned_Some in Hf as (? & ? & ?). by exists u.
Qed.

(** ** Rejected tokens *)

(** C2.  When the bearer credential is missing or fails verification, each
    of the five guarded handlers raises an [HTTPException] with status 401
    and the session is exactly what it was: no row changed and no
    data-layer call journalled.  In particular register creates no user. *)
Theorem invalid_token_rejected (authorization : option string) (s : Session) :
  verified authorization = false →
  (∀ user, ∃ d, register user authorization s = (Raise (HTTPException 401 d), s))
  ∧ (∀ id, ∃ d, read_users_me id authorization s = (Raise (HTTPException 401 d), s))
  ∧ (∀ id user, ∃ d,
       update_user id user authorization s = (Raise (HTTPException 401 d), s))
  ∧ (∀ id, ∃ d, delete_user_me id authorization s = (Raise (HTTPException 401 d), s))
  ∧ (∃ d, read_users_all authorization s = (Raise (HTTPException 401 d), s)).
Proof.
  intros Hv. destruct authorization as [token|]; simpl in Hv.
  - pose proof (get_current_user_invalid token s Hv) as Hg.
    repeat split; intros; eexists;
      unfold register, read_users_me, update_user, delete_user_me,
        read_users_all, bind, oauth2_scheme, ret; rewrite Hg; reflexivity.
  - repeat split; intros; eexists; reflexivity.
Qed.

(** ** Listing *)

(** C3.  With any valid token (whatever claims it carries), list-all
    returns one entry per row of the table, in table order, each being the
    row's id, username and email and nothing else; the table is left as it
    was. *)
Theorem list_all_returns_every_user (token : string) (s : Session) :
  truthy (decode_access_token token) = true →
  ∃ out,
    read_users_all (Some token) s
      = (Return out, mkSession (rows s) (trace s ++ [QueryAll]))
    ∧ out = UserOut.from_orm <$> rows s
    ∧ length out = length (rows s)
    ∧ (∀ (i : nat) (U : User.t), rows s !! i = Some U →
         out !! i = Some (UserOut.mk (User.id U) (User.username U) (User.email U)))
    ∧ Forall (λ o, keys (json_of_UserOut o) = ["id"; "username"; "email"]) out.
Proof.
  intros Hv. exists (UserOut.from_orm <$> rows s).
  destruct (decode_access_token token) as [p|] eqn:Hd; [|done].
  split; [|split; [done|split; [|split]]].
  - unfold read_users_all, bind, oauth2_scheme, ret.
    by rewrite (get_current_user_valid _ _ _ Hd Hv).
  - by rewrite length_fmap.
  - intros i U Hi. by rewrite list_lookup_fmap, Hi.
  - apply Forall_forall. intros o _. done.
Qed.
(** ** Login and register *)

(** C4.  Login takes no bearer credential and its result does not depend
    on how tokens are verified.  When the credential verifier returns no
    user, login raises 401 "Invalid credentials" and the journal gains the
    verifier call only, no token issuance; when it returns [U], login
    returns the dict with [access_token], the token issued for the claims
    [{"sub": U.username}], and [token_type] "bearer". *)
Theorem login_contract (user : UserLogin.t) (s : Session) :
  let found := authenticate_user (rows s) (UserLogin.username user)
                 (UserLogin.password user) in
  let s1 := mkSession (rows s)
              (trace s ++ [Authenticate (UserLogin.username user)]) in
  (found = None →
     login user s = (Raise (HTTPException 401 "Invalid credentials"), s1))
  ∧ (∀ U : User.t, found = Some U →
       let data : gmap string string := {[ "sub" := User.username U ]} in
       login user s =
         (Return (<[ "access_token" := create_access_token data ]>
                    {[ "token_type" := "bearer" ]}),
          mkSession (rows s) (trace s1 ++ [IssueToken data])))
  ∧ (∀ decode' : string → option (gmap string string),
       @login (Build_TokenCodec create_access_token decode') _ user s
       = login user s).
Proof.
  intros found s1. repeat split.
  - intros Hf. unfold login, bind, log; simpl. fold found. by rewrite Hf.
  - intros U Hf data. unfold login, bind, log; simpl. fold found. by rewrite Hf.
Qed.

(** C10.  Whenever register succeeds, the service returned a row
    [db_user], and the [id] member of the response's [user] is the string
    [str(db_user.id)], the decimal rendering of the integer id; in the JSON
    document it is a string, not a number. *)
Theorem register_id_is_string (user : UserCreate.t)
    (authorization : option string) (s : Session)
    (out : UserResponse.t) (s' : Session) :
  register user authorization s = (Return out, s') →
  ∃ db_user : User.t,
    (∃ l, create_user user (rows s) = inr (db_user, l) ∧ rows s' = l)
    ∧ UserResponse.user out !! "id" = Some (str (User.id db_user))
    ∧ field "user" (json_of_UserResponse out) ≫= field "id"
      = Some (JStr (str (User.id db_user))).
Proof.
  intros Hr. apply register_inv in Hr
    as (token & db_user & l & _ & _ & Hc & -> & ->).
  exists db_user. split; [by exists l|]. split; [done|].
  rewrite field_user_of_UserResponse. cbn [mbind option_bind UserResponse.user].
  by rewrite field_json_of_dict, lookup_insert_eq.
Qed.
(** C5.  With the user service as the spec describes it and a valid token:
    when the username is not in the table, register appends the new row
    (store-assigned id, hashed password), issues a token for the claims
    [{"sub": username}] and returns it with [token_type] "bearer", the
    message, and the new user's id, username and email; when the username
    is already in the table, it fails with the service's Conflict (409) and
    the table is unchanged. *)
Theorem register_contract (hash_password : string → string)
    (next_id : list User.t → Z)
    (authenticate : list User.t → string → string → option User.t)
    (user : UserCreate.t) (token : string) (s : Session) :
  truthy (decode_access_token token) = true →
  let spec := spec_service hash_password next_id authenticate in
  let name := UserCreate.username user in
  (name ∉ User.username <$> rows s →
     let db_user := User.mk (next_id (rows s)) name (UserCreate.email user)
                      (hash_password (UserCreate.password user)) in
     let data : gmap string string := {[ "sub" := name ]} in
     @register _ spec user (Some token) s =
       (Return (UserResponse.mk (create_access_token data) "bearer"
                  "User registered successfully"
                  (<[ "id" := str (next_id (rows s)) ]>
                     (<[ "username" := name ]>
                        {[ "email" := UserCreate.email user ]}))),
        mkSession (rows s ++ [db_user])
          (trace s ++ [CreateUser name; IssueToken data])))
  ∧ (name ∈ User.username <$> rows s →
       ∃ d, @register _ spec user (Some token) s =
              (Raise (HTTPException 409 d),
               mkSession (rows s) (trace s ++ [CreateUser name]))).
Proof.
  intros Hv spec name.
  destruct (decode_access_token token) as [p|] eqn:Hd; [|done].
  split.
  - intros Hfresh db_user data.
    unfold register, bind, oauth2_scheme, ret.
    rewrite (get_current_user_valid _ _ _ Hd Hv).
    unfold log; simpl. unfold create_user_spec.
    rewrite bool_decide_eq_false_2 by done.
    unfold issue, bind, log, ret; simpl. by rewrite <- app_assoc.
  - intros Htaken. exists "Conflict".
    unfold register, bind, oauth2_scheme, ret.
    rewrite (get_current_user_valid _ _ _ Hd Hv).
    unfold log; simpl. unfold create_user_spec.
    by rewrite bool_decide_eq_true_2.
Qed.

(** ** Update and delete *)

(** C6.  When update succeeds on a table with unique ids, exactly one row
    [U], the one with the requested id, is replaced: its username and email
    become the body's, its id and password hash stay, every other position
    of the table is untouched; and the body's password has no influence on
    the response or on the table. *)
Theorem update_frame (id : Z) (user : UserCreate.t)
    (authorization : option string) (s : Session)
    (out : UserOut.t) (s' : Session) :
  unique_ids (rows s) →
  update_user id user authorization s = (Return out, s') →
  ∃ (i : nat) (U : User.t),
    rows s !! i = Some U
    ∧ User.id U = id
    ∧ rows s' = <[ i := User.mk id (UserCreate.username user)
                          (UserCreate.email user) (User.password_hash U) ]> (rows s)
    ∧ out = UserOut.mk id (UserCreate.username user) (UserCreate.email user)
    ∧ (∀ pw, update_user id (UserCreate.set_password pw user) authorization s
             = (Return out, s')).
Proof.
  intros Hnd Hu.
  assert (∀ pw, update_user id (UserCreate.set_password pw user) authorization s
                = update_user id user authorization s) as Hpw.
  { intros pw. by rewrite !update_user_fetch. }
  pose proof Hu as Hrun. rewrite update_user_fetch in Hu.
  destruct (fetch_owned id authorization s) as [[[U|]|e] s1] eqn:Hf; try done.
  rewrite update_tail_run in Hu.
  apply fetch_owned_inv in Hf as (token & payload & sub & -> & Hd & Hs & Hfind & ->).
  symmetry in Hfind. apply find_owned_Some in Hfind as (HU & Hid & Hname).
  apply list_elem_of_lookup in HU as [i Hi].
  cbn [rows trace] in Hu. cbv zeta in Hu.
  destruct (integrity _) eqn:Hint; [|done].
  rewrite find_pk_flush_dirty in Hu.
  destruct (find _ (rows s)) as [V|] eqn:HV; [|done]. simpl in Hu.
  apply find_some in HV as [_ HV]. apply bool_decide_eq_true in HV.
  injection Hu as <- <-. exists i, U. subst id.
  assert (UserOut.from_orm
            (User.set_email (UserCreate.email user)
               (User.set_username (UserCreate.username user) V))
          = UserOut.mk (User.id U) (UserCreate.username user)
              (UserCreate.email user)) as Hout.
  { unfold UserOut.from_orm; simpl. by rewrite HV. }
  repeat split; try done.
  cbn [rows]. exact (flush_dirty_insert _ _ _ _ _ Hnd Hi).
Qed.

(** C7.  After a successful delete at an id, any further delete at the
    same id presenting a valid token with the same subject (the same token
    again, in particular) fails with 404 "User not found" and leaves the
    table as the first delete left it. *)
Theorem delete_twice_not_found (id : Z) (authorization : option string)
    (s : Session) (out : gmap string string) (s1 : Session) :
  delete_user_me id authorization s = (Return out, s1) →
  ∃ token payload sub,
    authorization = Some token
    ∧ decode_access_token token = Some payload
    ∧ payload !! "sub" = Some sub
    ∧ ∀ token2 payload2,
        decode_access_token token2 = Some payload2 →
        payload2 !! "sub" = Some sub →
        delete_user_me id (Some token2) s1 =
          (Raise (HTTPException 404 "User not found"),
           mkSession (rows s1) (trace s1 ++ [QueryFirst id sub])).
Proof.
  intros Hdel. rewrite delete_user_me_fetch in Hdel.
  destruct (fetch_owned id authorization s) as [[[U|]|e] s0] eqn:Hf; try done.
  apply fetch_owned_inv in Hf as (token & payload & sub & -> & Hd & Hs & Hfind & ->).
  symmetry in Hfind. apply find_owned_Some in Hfind as (HU & Hid & Hname).
  rewrite delete_tail_run in Hdel. cbv zeta in Hdel.
  destruct (integrity _) eqn:Hint; [|done].
  injection Hdel as <- <-.
  exists token, payload, sub. repeat split; try done.
  intros token2 payload2 Hd2 Hs2.
  rewrite delete_user_me_fetch, (fetch_owned_valid _ _ _ _ _ Hd2 Hs2).
  cbn [rows trace]. subst id. by rewrite find_owned_after_delete.
Qed.
(** ** Lemmas on the owner's row *)

Lemma find_pk_Some (l : list User.t) (U : User.t) :
  U ∈ l →
  ∃ V, find (λ r, bool_decide (User.id r = User.id U)) l = Some V
       ∧ User.id V = User.id U.
Proof.
  intros HU. destruct (find _ l) as [V|] eqn:HV.
  - exists V. split; [done|].
    apply find_some in HV as [_ HV]. by apply bool_decide_eq_true in HV.
  - exfalso. assert (bool_decide (User.id U = User.id U) = false) as Hb.
    { apply (find_none _ _ HV U). by apply list_elem_of_In. }
    by rewrite bool_decide_eq_true_2 in Hb.
Qed.

(** On a table with unique ids the owner query returns the owner's row. *)
Lemma find_owned_unique (l : list User.t) (U : User.t) :
  unique_ids l → U ∈ l →
  find (owned_by (User.id U) (User.username U)) l = Some U.
Proof.
  intros Hnd HU.
  destruct (find _ l) as [W|] eqn:HW.
  - apply find_owned_Some in HW as (HW & Hid & _).
    f_equal. by apply (unique_ids_inj l).
  - exfalso. by apply (find_owned_None _ _ _ HW U).
Qed.

(** The tail of update when the row is in the table: the reload cannot
    miss. *)
Lemma update_found_run (U : User.t) (n e : string) (s : Session) :
  U ∈ rows s →
  (commit (Dirty (User.id U) n e) ;;;
   let* db_user := refresh (User.id U) in
   ret (UserOut.from_orm db_user)) s
  = if integrity (flush (Dirty (User.id U) n e) (rows s)) then
      (Return (UserOut.mk (User.id U) n e),
       mkSession (flush (Dirty (User.id U) n e) (rows s))
         (trace s ++ [Commit; Refresh (User.id U)]))
    else (Raise IntegrityError, mkSession (rows s) (trace s ++ [Commit])).
Proof.
  intros HU. rewrite update_tail_run. cbv zeta.
  destruct (integrity _); [|done].
  rewrite find_pk_flush_dirty.
  destruct (find_pk_Some _ _ HU) as (V & -> & HV). simpl.
  unfold UserOut.from_orm; simpl. by rewrite HV.
Qed.

(** ** What the responses contain *)

(** C8.  No success response carries a stored password hash: each payload
    is a function of a record's id, username and email and of the token
    issued for a username, and of nothing else.  Register answers
    [register_payload] of the id, username and email of the row the service
    returned; login [login_payload] of the username the verifier returned;
    get-by-id the id, username and email of the stored row with the
    requested id; update the requested id with the body's username and
    email; delete the fixed message; list-all the id, username and email of
    every row.  Hence no document has a member named [password_hash] (nor
    [password]) at any depth, and two tables that differ only in the
    password hashes get the same answers from get-by-id and list-all. *)
Theorem responses_hide_password (s : Session) :
  (∀ user a out s', register user a s = (Return out, s') →
     (∃ db_user l,
        create_user user (rows s) = inr (db_user, l)
        ∧ out = register_payload (User.id db_user) (User.username db_user)
                  (User.email db_user))
     ∧ password_free (json_of_UserResponse out))
  ∧ (∀ user out s', login user s = (Return out, s') →
       (∃ U,
          authenticate_user (rows s) (UserLogin.username user)
            (UserLogin.password user) = Some U
          ∧ out = login_payload (User.username U))
       ∧ password_free (json_of_dict out))
  ∧ (∀ id a out s', read_users_me id a s = (Return out, s') →
       (∃ U, U ∈ rows s ∧ User.id U = id
             ∧ out = UserOut.mk (User.id U) (User.username U) (User.email U))
       ∧ password_free (json_of_UserOut out))
  ∧ (∀ id user a out s', update_user id user a s = (Return out, s') →
       out = UserOut.mk id (UserCreate.username user) (UserCreate.email user)
       ∧ password_free (json_of_UserOut out))
  ∧ (∀ id a out s', delete_user_me id a s = (Return out, s') →
       out = deleted_payload
       ∧ password_free (json_of_dict out))
  ∧ (∀ a out s', read_users_all a s = (Return out, s') →
       out = (λ U, UserOut.mk (User.id U) (User.username U) (User.email U))
               <$> rows s
       ∧ password_free (JArr (json_of_UserOut <$> out)))
  ∧ (∀ s2, public <$> rows s2 = public <$> rows s →
       (∀ id a, fst (read_users_me id a s2) = fst (read_users_me id a s))
       ∧ (∀ a, fst (read_users_all a s2) = fst (read_users_all a s))).
Proof.
  split; [|split; [|split; [|split; [|split; [|split]]]]].
  - intros user a out s' Hr.
    apply register_inv in Hr as (token & db_user & l & _ & _ & Hc & -> & _).
    split; [by exists db_user, l|].
    apply UserResponse_password_free; simpl; by simplify_map_eq.
  - intros user out s'. unfold login, bind, log; simpl.
    destruct (authenticate_user _ _ _) as [U|] eqn:Hauth; [|done].
    unfold issue, bind, log, ret; simpl. intros [= <- _].
    split; [by exists U|].
    apply dict_password_free; by simplify_map_eq.
  - intros id a out s'. rewrite read_users_me_fetch.
    destruct (fetch_owned id a s) as [[[U|]|e] s0] eqn:Hf; try done.
    apply fetch_owned_inv in Hf as (token & payload & sub & _ & _ & _ & Hfind & _).
    symmetry in Hfind. apply find_owned_Some in Hfind as (HU & Hid & _).
    intros [= <- _]. split; [by exists U|]. apply UserOut_password_free.
  - intros id user a out s'. rewrite update_user_fetch.
    destruct (fetch_owned id a s) as [[[U|]|e] s0] eqn:Hf; try done.
    apply fetch_owned_inv in Hf as (token & payload & sub & _ & _ & _ & Hfind & ->).
    symmetry in Hfind. apply find_owned_Some in Hfind as (HU & <- & _).
    rewrite update_found_run by done.
    destruct (integrity _); [|done]. intros [= <- _].
    split; [done|]. apply UserOut_password_free.
  - intros id a out s'. rewrite delete_user_me_fetch.
    destruct (fetch_owned id a s) as [[[U|]|e] s0]; try done.
    rewrite delete_tail_run. cbv zeta.
    destruct (integrity _); [|done]. intros [= <- _].
    split; [done|]. apply dict_password_free; by simplify_map_eq.
  - intros a out s' Hr. split.
    + revert Hr. unfold read_users_all, bind, oauth2_scheme, ret, raise.
      destruct a as [token|]; [|done]. unfold get_current_user.
      destruct (decode_access_token token) as [p|]; [|done].
      destruct (truthy (Some p)); [|done].
      unfold query_all, bind, log, ret; simpl. by intros [= <- _].
    + split; intros Hk; apply keys_UserOut_list in Hk as [?|[?|?]]; done.
  - intros s2 Hpub. split.
    + intros id a. rewrite !read_users_me_fetch.
      unfold fetch_owned, bind, oauth2_scheme, ret, raise.
      destruct a as [token|]; [|done]. unfold get_current_user.
      destruct (decode_access_token token) as [p|]; [|done].
      destruct (truthy (Some p)); [|done].
      unfold subscript, ret, raise. destruct (p !! "sub") as [sub|]; [|done].
      unfold query_first, bind, log; simpl.
      pose proof (find_owned_public _ _ id sub Hpub) as Hfind.
      destruct (find _ (rows s2)), (find _ (rows s)); simpl in *; congruence.
    + intros a. unfold read_users_all, bind, oauth2_scheme, ret, raise.
      destruct a as [token|]; [|done]. unfold get_current_user.
      destruct (decode_access_token token) as [p|]; [|done].
      destruct (truthy (Some p)); [|done].
      unfold query_all, bind, log, ret; simpl.
      by rewrite (from_orm_fmap_public _ _ Hpub).
Qed.

(** ** Further properties of the handlers *)

Lemma fetch_owned_rows (id : Z) (a : option string) (s : Session)
    (o : outcome (option User.t)) (s' : Session) :
  fetch_owned id a s = (o, s') → rows s' = rows s.
Proof.
  unfold fetch_owned, bind, oauth2_scheme, ret, raise.
  destruct a as [token|]; [|by intros [= _ <-]].
  unfold get_current_user.
  destruct (decode_access_token token) as [p|]; [|by intros [= _ <-]].
  destruct (truthy (Some p)); [|by intros [= _ <-]].
  unfold subscript, ret, raise.
  destruct (p !! "sub") as [sub|]; [|by intros [= _ <-]].
  unfold query_first, bind, log; simpl. by intros [= _ <-].
Qed.

Lemma fetch_owned_no_subject (id : Z) (token : string)
    (payload : gmap string string) (s : Session) :
  decode_access_token token = Some payload →
  truthy (Some payload) = true →
  payload !! "sub" = None →
  fetch_owned id (Some token) s = (Raise (KeyError "sub"), s).
Proof.
  intros Hd Ht Hs. unfold fetch_owned, bind, oauth2_scheme, ret.
  rewrite (get_current_user_valid _ _ _ Hd Ht).
  unfold subscript. by rewrite Hs.
Qed.

(** What update did to the table, whatever its outcome. *)
Lemma update_user_rows (id : Z) (user : UserCreate.t) (a : option string)
    (s : Session) (o : outcome UserOut.t) (s' : Session) :
  update_user id user a s = (o, s') →
  (∀ e, o = Raise e → rows s' = rows s)
  ∧ (rows s' = rows s
     ∨ rows s' = flush (Dirty id (UserCreate.username user)
                          (UserCreate.email user)) (rows s)).
Proof.
  rewrite update_user_fetch.
  destruct (fetch_owned id a s) as [[[U|]|e] s0] eqn:Hf;
    pose proof (fetch_owned_rows _ _ _ _ _ Hf) as Hrows.
  - apply fetch_owned_inv in Hf as (token & payload & sub & -> & _ & _ & Hfind & ->).
    symmetry in Hfind. apply find_owned_Some in Hfind as (HU & <- & _).
    rewrite update_found_run by done. cbn [rows trace].
    destruct (integrity _); intros [= <- <-]; cbn [rows]; split; auto; done.
  - intros [= <- <-]. split; auto.
  - intros [= <- <-]. split; auto.
Qed.

(** What delete did to the table, whatever its outcome. *)
Lemma delete_user_me_rows (id : Z) (a : option string)
    (s : Session) (o : outcome (gmap string string)) (s' : Session) :
  delete_user_me id a s = (o, s') →
  (∀ e, o = Raise e → rows s' = rows s)
  ∧ (rows s' = rows s ∨ rows s' = flush (Deleted id) (rows s)).
Proof.
  rewrite delete_user_me_fetch.
  destruct (fetch_owned id a s) as [[[U|]|e] s0] eqn:Hf;
    pose proof (fetch_owned_rows _ _ _ _ _ Hf) as Hrows.
  - apply fetch_owned_inv in Hf as (token & payload & sub & -> & _ & _ & Hfind & ->).
    symmetry in Hfind. apply find_owned_Some in Hfind as (HU & <- & _).
    rewrite delete_tail_run. cbv zeta. cbn [rows trace].
    destruct (integrity _); intros [= <- <-]; cbn [rows]; split; auto; done.
  - intros [= <- <-]. split; auto.
  - intros [= <- <-]. split; auto.
Qed.

Lemma read_users_me_rows (id : Z) (a : option string)
    (s : Session) (o : outcome UserOut.t) (s' : Session) :
  read_users_me id a s = (o, s') → rows s' = rows s.
Proof.
  rewrite read_users_me_fetch.
  destruct (fetch_owned id a s) as [[[U|]|e] s0] eqn:Hf;
    pose proof (fetch_owned_rows _ _ _ _ _ Hf) as Hrows;
    by intros [= _ <-].
Qed.

Lemma read_users_all_rows (a : option string)
    (s : Session) (o : outcome (list UserOut.t)) (s' : Session) :
  read_users_all a s = (o, s') → rows s' = rows s.
Proof.
  unfold read_users_all, bind, oauth2_scheme, ret, raise.
  destruct a as [token|]; [|by intros [= _ <-]].
  unfold get_current_user.
  destruct (decode_access_token token) as [p|]; [|by intros [= _ <-]].
  destruct (truthy (Some p)); [|by intros [= _ <-]].
  unfold query_all, bind, log, ret; simpl. by intros [= _ <-].
Qed.

(** X1.  A token that verifies but carries no [sub] claim: get-by-id,
    update and delete raise [KeyError] on [current_user["sub"]], which the
    framework answers with a 500, before any data-layer call; list-all,
    which never reads the subject, still answers with every row. *)
Theorem token_without_subject (token : string) (payload : gmap string string)
    (s : Session) :
  decode_access_token token = Some payload →
  payload ≠ ∅ →
  payload !! "sub" = None →
  (∀ id, read_users_me id (Some token) s = (Raise (KeyError "sub"), s))
  ∧ (∀ id user, update_user id user (Some token) s = (Raise (KeyError "sub"), s))
  ∧ (∀ id, delete_user_me id (Some token) s = (Raise (KeyError "sub"), s))
  ∧ status_of (KeyError "sub") = 500%Z
  ∧ read_users_all (Some token) s
    = (Return (UserOut.from_orm <$> rows s),
       mkSession (rows s) (trace s ++ [QueryAll])).
Proof.
  intros Hd Hne Hs.
  assert (truthy (Some payload) = true) as Ht.
  { simpl. by rewrite bool_decide_eq_false_2. }
  repeat split; intros.
  - by rewrite read_users_me_fetch, (fetch_owned_no_subject _ _ _ _ Hd Ht Hs).
  - by rewrite update_user_fetch, (fetch_owned_no_subject _ _ _ _ Hd Ht Hs).
  - by rewrite delete_user_me_fetch, (fetch_owned_no_subject _ _ _ _ Hd Ht Hs).
  - unfold read_users_all, bind, oauth2_scheme, ret.
    by rewrite (get_current_user_valid _ _ _ Hd Ht).
Qed.

(** X2.  The owner reaches the record: with a valid token whose subject is
    the username of a stored record [U] (ids unique), get-by-id returns
    [U]'s id, username and email; update answers with the id and the body's
    username and email and delete with its message whenever the commit is
    accepted, and both raise [IntegrityError] and keep the table when it is
    refused. *)
Theorem owner_reaches_record (s : Session) (token : string)
    (payload : gmap string string) (U : User.t) :
  decode_access_token token = Some payload →
  payload !! "sub" = Some (User.username U) →
  unique_ids (rows s) →
  U ∈ rows s →
  let s0 := mkSession (rows s)
              (trace s ++ [QueryFirst (User.id U) (User.username U)]) in
  read_users_me (User.id U) (Some token) s = (Return (UserOut.from_orm U), s0)
  ∧ (∀ user,
       let l := flush (Dirty (User.id U) (UserCreate.username user)
                         (UserCreate.email user)) (rows s) in
       update_user (User.id U) user (Some token) s
       = if integrity l then
           (Return (UserOut.mk (User.id U) (UserCreate.username user)
                      (UserCreate.email user)),
            mkSession l (trace s0 ++ [Commit; Refresh (User.id U)]))
         else (Raise IntegrityError, mkSession (rows s) (trace s0 ++ [Commit])))
  ∧ (let l := flush (Deleted (User.id U)) (rows s) in
     delete_user_me (User.id U) (Some token) s
     = if integrity l then
         (Return {[ "message" := "User deleted successfully" ]},
          mkSession l (trace s0 ++ [Commit]))
       else (Raise IntegrityError, mkSession (rows s) (trace s0 ++ [Commit]))).
Proof.
  intros Hd Hs Hnd HU s0.
  pose proof (find_owned_unique _ _ Hnd HU) as Hf.
  repeat split.
  - by rewrite read_users_me_fetch, (fetch_owned_valid _ _ _ _ _ Hd Hs), Hf.
  - intros user l.
    rewrite update_user_fetch, (fetch_owned_valid _ _ _ _ _ Hd Hs), Hf.
    by rewrite update_found_run.
  - intros l.
    rewrite delete_user_me_fetch, (fetch_owned_valid _ _ _ _ _ Hd Hs), Hf.
    by rewrite delete_tail_run.
Qed.

(** X3.  No partial effect: get-by-id and list-all never change the table,
    whatever they answer, and an update or a delete that raises (401, 404,
    [KeyError] or a refused commit) leaves every row as it was.  In
    particular update never fails after its commit went through. *)
Theorem failure_leaves_table (s : Session) :
  (∀ id a o s', read_users_me id a s = (o, s') → rows s' = rows s)
  ∧ (∀ a o s', read_users_all a s = (o, s') → rows s' = rows s)
  ∧ (∀ id user a e s', update_user id user a s = (Raise e, s') →
       rows s' = rows s)
  ∧ (∀ id a e s', delete_user_me id a s = (Raise e, s') → rows s' = rows s).
Proof.
  split; [|split; [|split]].
  - intros id a o s'. apply read_users_me_rows.
  - intros a o s'. apply read_users_all_rows.
  - intros id user a e s' Hu.
    by apply (update_user_rows _ _ _ _ _ _ Hu) with e.
  - intros id a e s' Hd.
    by apply (delete_user_me_rows _ _ _ _ _ Hd) with e.
Qed.

(** X4.  The primary-key constraint is an invariant of get-by-id, update,
    delete and list-all: if ids are unique before the call they are unique
    after it, whatever the outcome. *)
Theorem handlers_keep_unique_ids (s : Session) :
  unique_ids (rows s) →
  (∀ id a o s', read_users_me id a s = (o, s') → unique_ids (rows s'))
  ∧ (∀ id user a o s', update_user id user a s = (o, s') → unique_ids (rows s'))
  ∧ (∀ id a o s', delete_user_me id a s = (o, s') → unique_ids (rows s'))
  ∧ (∀ a o s', read_users_all a s = (o, s') → unique_ids (rows s')).
Proof.
  intros Hnd. split; [|split; [|split]].
  - intros id a o s' Hr. by rewrite (read_users_me_rows _ _ _ _ _ Hr).
  - intros id user a o s' Hu.
    destruct (update_user_rows _ _ _ _ _ _ Hu) as [_ [->| ->]];
      [done|by apply flush_keeps_unique_ids].
  - intros id a o s' Hd.
    destruct (delete_user_me_rows _ _ _ _ _ Hd) as [_ [->| ->]];
      [done|by apply flush_keeps_unique_ids].
  - intros a o s' Hr. by rewrite (read_users_all_rows _ _ _ _ Hr).
Qed.
(** X5.  Update followed by get-by-id with the same token, on a table with
    unique ids: when the body keeps the username equal to the token's
    subject, get returns exactly what update answered; when the body
    changes the username, the old token no longer reaches the record and
    get answers 404. *)
Theorem update_then_get (id : Z) (user : UserCreate.t) (token : string)
    (s : Session) (out : UserOut.t) (s' : Session) :
  unique_ids (rows s) →
  update_user id user (Some token) s = (Return out, s') →
  ∃ payload sub,
    decode_access_token token = Some payload
    ∧ payload !! "sub" = Some sub
    ∧ let s'' := mkSession (rows s') (trace s' ++ [QueryFirst id sub]) in
      (UserCreate.username user = sub →
         read_users_me id (Some token) s' = (Return out, s''))
      ∧ (UserCreate.username user ≠ sub →
           read_users_me id (Some token) s'
           = (Raise (HTTPException 404 "User not found"), s'')).
Proof.
  intros Hnd Hu. rewrite update_user_fetch in Hu.
  destruct (fetch_owned id (Some token) s) as [[[U|]|e] s0] eqn:Hf; try done.
  apply fetch_owned_inv in Hf as (token' & payload & sub & [= <-] & Hd & Hs & Hfind & ->).
  symmetry in Hfind. apply find_owned_Some in Hfind as (HU & <- & Hname).
  rewrite update_found_run in Hu by done. cbn [rows trace] in Hu.
  destruct (integrity _); [|done]. injection Hu as <- <-.
  exists payload, sub. split; [done|split; [done|]]. cbn [rows trace].
  set (U' := User.mk (User.id U) (UserCreate.username user)
               (UserCreate.email user) (User.password_hash U)).
  set (l := flush _ (rows s)).
  assert (unique_ids l) as Hnd' by by apply flush_keeps_unique_ids.
  assert (U' ∈ l) as HU'.
  { apply list_elem_of_lookup in HU as [i Hi]. unfold l.
    rewrite (flush_dirty_insert _ _ _ _ _ Hnd Hi).
    apply list_elem_of_lookup. exists i.
    apply list_lookup_insert_eq. by apply lookup_lt_Some in Hi. }
  split.
  - intros Heq.
    rewrite read_users_me_fetch, (fetch_owned_valid _ _ _ _ _ Hd Hs). cbn [rows trace].
    pose proof (find_owned_unique _ _ Hnd' HU') as Hf. simpl in Hf.
    rewrite Heq in Hf. by rewrite Hf.
  - intros Hne.
    rewrite read_users_me_fetch, (fetch_owned_valid _ _ _ _ _ Hd Hs). cbn [rows trace].
    assert (find (owned_by (User.id U') sub) l = None) as Hf.
    { by apply find_foreign_None. }
    simpl in Hf. by rewrite Hf.
Qed.

(** X6.  A successful delete on a table with unique ids removes exactly
    one row, the one with the requested id, which belonged to the token's
    subject; the other rows keep their order; the answer is the fixed
    message. *)
Theorem delete_frame (id : Z) (authorization : option string)
    (s : Session) (out : gmap string string) (s' : Session) :
  unique_ids (rows s) →
  delete_user_me id authorization s = (Return out, s') →
  ∃ (i : nat) (U : User.t) (token : string) (payload : gmap string string),
    rows s !! i = Some U
    ∧ User.id U = id
    ∧ authorization = Some token
    ∧ decode_access_token token = Some payload
    ∧ payload !! "sub" = Some (User.username U)
    ∧ rows s' = delete i (rows s)
    ∧ S (length (rows s')) = length (rows s)
    ∧ out = {[ "message" := "User deleted successfully" ]}.
Proof.
  intros Hnd Hdel. rewrite delete_user_me_fetch in Hdel.
  destruct (fetch_owned id authorization s) as [[[U|]|e] s0] eqn:Hf; try done.
  apply fetch_owned_inv in Hf as (token & payload & sub & -> & Hd & Hs & Hfind & ->).
  symmetry in Hfind. apply find_owned_Some in Hfind as (HU & <- & <-).
  rewrite delete_tail_run in Hdel. cbv zeta in Hdel. cbn [rows trace] in Hdel.
  destruct (integrity _); [|done]. injection Hdel as <- <-.
  apply list_elem_of_lookup in HU as [i Hi].
  exists i, U, token, payload. cbn [rows].
  rewrite (flush_deleted_delete _ _ _ Hnd Hi).
  repeat split; try done.
  rewrite length_delete by by eexists.
  apply lookup_lt_Some in Hi. lia.
Qed.

(** X7.  Once a delete succeeded, the same token finds nothing at that id:
    get-by-id and update answer 404, and no entry of list-all carries the
    id. *)
Theorem deleted_record_unreachable (id : Z) (token : string)
    (s : Session) (out : gmap string string) (s1 : Session) :
  delete_user_me id (Some token) s = (Return out, s1) →
  ∃ sub,
    let s2 := mkSession (rows s1) (trace s1 ++ [QueryFirst id sub]) in
    read_users_me id (Some token) s1
      = (Raise (HTTPException 404 "User not found"), s2)
    ∧ (∀ user, update_user id user (Some token) s1
               = (Raise (HTTPException 404 "User not found"), s2))
    ∧ ∃ outs,
        read_users_all (Some token) s1
          = (Return outs, mkSession (rows s1) (trace s1 ++ [QueryAll]))
        ∧ ∀ o, o ∈ outs → UserOut.id o ≠ id.
Proof.
  intros Hdel. rewrite delete_user_me_fetch in Hdel.
  destruct (fetch_owned id (Some token) s) as [[[U|]|e] s0] eqn:Hf; try done.
  apply fetch_owned_inv in Hf as (token' & payload & sub & [= <-] & Hd & Hs & Hfind & ->).
  symmetry in Hfind. apply find_owned_Some in Hfind as (HU & <- & Hname).
  rewrite delete_tail_run in Hdel. cbv zeta in Hdel. cbn [rows trace] in Hdel.
  destruct (integrity _); [|done]. injection Hdel as <- <-.
  exists sub. cbn [rows trace]. split; [|split].
  - rewrite read_users_me_fetch, (fetch_owned_valid _ _ _ _ _ Hd Hs).
    cbn [rows trace]. by rewrite find_owned_after_delete.
  - intros user.
    rewrite update_user_fetch, (fetch_owned_valid _ _ _ _ _ Hd Hs).
    cbn [rows trace]. by rewrite find_owned_after_delete.
  - eexists. split.
    + unfold read_users_all, bind, oauth2_scheme, ret.
      rewrite (get_current_user_valid _ _ _ Hd (truthy_sub _ _ Hs)). done.
    + intros o Ho. apply list_elem_of_fmap in Ho as (r & -> & Hr).
      apply flush_deleted_gone in Hr as [Hne _]. done.
Qed.

(** X8.  Register and list-all never look at who the caller is: any two
    tokens that verify give the same outcome and the same session. *)
Theorem caller_identity_irrelevant (token1 token2 : string) (s : Session) :
  truthy (decode_access_token token1) = true →
  truthy (decode_access_token token2) = true →
  (∀ user, register user (Some token1) s = register user (Some token2) s)
  ∧ read_users_all (Some token1) s = read_users_all (Some token2) s.
Proof.
  intros H1 H2.
  destruct (decode_access_token token1) as [p1|] eqn:Hd1; [|done].
  destruct (decode_access_token token2) as [p2|] eqn:Hd2; [|done].
  split; [intros user|];
    unfold register, read_users_all, bind, oauth2_scheme, ret;
    by rewrite (get_current_user_valid _ _ _ Hd1 H1),
               (get_current_user_valid _ _ _ Hd2 H2).
Qed.

(** X9.  Login then get-by-id: when the verifier returns a row [U] of the
    table (ids unique) and the codec decodes the token it issues for
    [{"sub": U.username}] to a payload with that subject, the token login
    returns opens [U]'s own record. *)
Theorem login_then_get (user : UserLogin.t) (s : Session) (U : User.t)
    (payload : gmap string string) :
  authenticate_user (rows s) (UserLogin.username user) (UserLogin.password user)
    = Some U →
  U ∈ rows s →
  unique_ids (rows s) →
  decode_access_token (create_access_token {[ "sub" := User.username U ]})
    = Some payload →
  payload !! "sub" = Some (User.username U) →
  ∃ token s',
    login user s
      = (Return (<[ "access_token" := token ]> {[ "token_type" := "bearer" ]}), s')
    ∧ rows s' = rows s
    ∧ read_users_me (User.id U) (Some token) s'
      = (Return (UserOut.from_orm U),
         mkSession (rows s)
           (trace s' ++ [QueryFirst (User.id U) (User.username U)])).
Proof.
  intros Hauth HU Hnd Hd Hs.
  exists (create_access_token {[ "sub" := User.username U ]}). eexists.
  split; [|split].
  - unfold login, bind, log; simpl. rewrite Hauth.
    unfold issue, bind, log, ret; simpl. reflexivity.
  - done.
  - rewrite read_users_me_fetch, (fetch_owned_valid _ _ _ _ _ Hd Hs).
    cbn [rows trace]. by rewrite (find_owned_unique _ _ Hnd HU).
Qed.

(** X10.  Register then get-by-id: when the service stored the row it
    returned (ids unique) and the codec decodes the issued token to a
    payload whose subject is the new username, get-by-id at the new id with
    the token of the register response returns the record whose id,
    username and email the register response announced. *)
Theorem register_then_get (user : UserCreate.t) (a : option string)
    (s : Session) (out : UserResponse.t) (s' : Session)
    (db_user : User.t) (l : list User.t) (payload : gmap string string) :
  register user a s = (Return out, s') →
  create_user user (rows s) = inr (db_user, l) →
  db_user ∈ l →
  unique_ids l →
  decode_access_token (UserResponse.access_token out) = Some payload →
  payload !! "sub" = Some (User.username db_user) →
  ∃ o s'',
    read_users_me (User.id db_user) (Some (UserResponse.access_token out)) s'
      = (Return o, s'')
    ∧ rows s'' = l
    ∧ UserResponse.user out
      = <[ "id" := str (UserOut.id o) ]>
          (<[ "username" := UserOut.username o ]>
             {[ "email" := UserOut.email o ]}).
Proof.
  intros Hr Hc Hin Hnd Hd Hs.
  apply register_inv in Hr
    as (token & db_user' & l' & _ & _ & Hc' & -> & ->).
  rewrite Hc in Hc'. injection Hc' as <- <-.
  simpl in Hd. eexists _, _. split; [|split].
  - rewrite read_users_me_fetch. simpl.
    rewrite (fetch_owned_valid _ _ _ _ _ Hd Hs). cbn [rows trace].
    rewrite (find_owned_unique _ _ Hnd Hin). reflexivity.
  - done.
  - done.
Qed.

End properties.

(** ** Route order *)

(** C9.  [GET /{id}] is registered before [GET /all]: a GET whose path
    segment is the literal [all] is dispatched to the get-by-id handler,
    where [all] does not convert to an integer; and no request at all, of
    any method and path, is dispatched to the list-all handler. *)
Theorem list_all_route_is_shadowed :
  dispatch GET ["all"] = Some ep_read_users_me
  ∧ int_of_segment "all" = None
  ∧ (∀ (m : http_method) (p : list string),
       dispatch m p ≠ Some ep_read_users_all).
Proof.
  split; [done|split; [done|]].
  intros m p Hd. unfold dispatch, router in Hd. cbn [find] in Hd.
  destruct (route_matches m p (mkRoute GET [Lit "all"] ep_read_users_all))
    eqn:Hall.
  - apply list_all_shadowed in Hall. rewrite Hall in Hd.
    repeat (destruct (route_matches m p _) in Hd; [done|]). done.
  - repeat (destruct (route_matches m p _) in Hd; [done|]). done.
Qed.

(** X11.  The route table in closed form.  Only one-segment paths with a
    non-empty segment are routed.  Every GET of such a path goes to
    get-by-id, whatever the segment says ([register], [login] and [all]
    included), every PUT to update and every DELETE to delete; POST is
    routed for [register] and [login] only; a method no decorator
    registers, such as HEAD, reaches no handler. *)
Theorem dispatch_table (m : http_method) (p : list string) :
  dispatch m p =
    match p with
    | [seg] =>
        if bool_decide (seg = "") then None else
        match m with
        | GET => Some ep_read_users_me
        | HEAD => None
        | PUT => Some ep_update_user
        | DELETE => Some ep_delete_user_me
        | POST =>
            if bool_decide (seg = "register") then Some ep_register
            else if bool_decide (seg = "login") then Some ep_login
            else None
        end
    | _ => None
    end.
Proof.
  unfold dispatch, router, route_matches.
  destruct p as [|seg [|seg' p]].
  - by destruct m.
  - cbn [find route_method route_path path_matches segment_matches].
    rewrite !andb_true_r.
    rewrite (bool_decide_ext ("register" = seg) (seg = "register")) by done.
    rewrite (bool_decide_ext ("login" = seg) (seg = "login")) by done.
    rewrite (bool_decide_ext ("all" = seg) (seg = "all")) by done.
    destruct m; simpl;
      repeat (case_bool_decide; simplify_eq; simpl; try done).
  - cbn [find route_method route_path path_matches segment_matches].
    rewrite !andb_false_r. done.
Qed.

(** ** The id as text and back *)

Lemma digit_of_pretty_N_char (d : N) :
  (d < 10)%N → digit_of (pretty_N_char d) = Some (Z.of_N d).
Proof.
  intros Hd.
  destruct d as [|p]; [done|].
  do 4 (destruct p as [p|p|]; try done; try lia).
Qed.

Lemma int_of_segment_digit (d : N) (r : string) :
  (d < 10)%N →
  int_of_segment (String (pretty_N_char d) r)
  = digits_to_Z 0 (String (pretty_N_char d) r).
Proof.
  intros Hd.
  destruct d as [|p]; [done|].
  do 4 (destruct p as [p|p|]; try done; try lia).
Qed.

(** Reading back the digits [pretty_N_go] writes in front of [s]. *)
Lemma digits_to_Z_pretty_N_go (x : N) :
  ∃ k : Z, ∀ (acc : Z) (s : string),
    digits_to_Z acc (pretty_N_go x s) = digits_to_Z (acc * k + Z.of_N x) s.
Proof.
  induction (N.lt_wf_0 x) as [x _ IH].
  destruct (decide (x = 0)%N) as [->|Hx].
  - exists 1%Z. intros acc s. rewrite pretty_N_go_0. f_equal. lia.
  - destruct (IH (x `div` 10)%N) as [k Hk].
    { apply N.div_lt; lia. }
    exists (10 * k)%Z. intros acc s.
    rewrite pretty_N_go_step by lia. rewrite Hk. simpl.
    rewrite digit_of_pretty_N_char by (apply N.mod_lt; lia).
    f_equal. pose proof (N.div_mod' x 10) as Hdm. lia.
Qed.

(** A positive number is written as at least one digit. *)
Lemma pretty_N_go_head (x : N) (s : string) :
  (0 < x)%N →
  ∃ d r, (d < 10)%N ∧ pretty_N_go x s = String (pretty_N_char d) r.
Proof.
  revert s. induction (N.lt_wf_0 x) as [x _ IH]. intros s Hx.
  rewrite pretty_N_go_step by done.
  destruct (decide (x `div` 10 = 0)%N) as [->|Hq].
  - rewrite pretty_N_go_0. eexists _, _. split; [|done]. apply N.mod_lt. lia.
  - apply IH; [apply N.div_lt; lia | by apply N.neq_0_lt_0].
Qed.

Lemma int_of_segment_pretty_pos (p : positive) :
  ∃ d r, (d < 10)%N
    ∧ pretty (N.pos p) = String (pretty_N_char d) r
    ∧ digits_to_Z 0 (String (pretty_N_char d) r) = Some (Z.pos p).
Proof.
  unfold pretty, pretty_N. rewrite decide_False by done.
  destruct (pretty_N_go_head (N.pos p) "") as (d & r & Hd & Heq); [lia|].
  exists d, r. split; [done|split; [done|]].
  rewrite <- Heq.
  destruct (digits_to_Z_pretty_N_go (N.pos p)) as [k Hk].
  rewrite Hk. simpl. done.
Qed.

(** X12.  The text [str] makes of an id converts back, as a path
    parameter, to that id: the [id] string of a register response addresses
    the new record in [/{id}]. *)
Theorem int_of_segment_str (n : Z) : int_of_segment (str n) = Some n.
Proof.
  unfold str. destruct n as [|p|p].
  - done.
  - change (pretty (Z.pos p)) with (pretty (N.pos p)).
    destruct (int_of_segment_pretty_pos p) as (d & r & Hd & -> & Hv).
    by rewrite int_of_segment_digit.
  - change (pretty (Z.neg p)) with (String "-" (pretty (N.pos p))).
    destruct (int_of_segment_pretty_pos p) as (d & r & Hd & -> & Hv).
    cbn [int_of_segment]. by rewrite Hv.
Qed.

(** ** Instances on the sample data *)

Lemma sample_unique_ids : unique_ids (rows Sample.db).
Proof. apply (bool_decide_unpack _). by vm_compute. Qed.

Lemma sample_fresh_name : "carol" ∉ User.username <$> rows Sample.db.
Proof. apply (bool_decide_unpack _). by vm_compute. Qed.

(** C1 on the sample table: bob's token at alice's id. *)
Lemma ownership_rule_witness :
  read_users_me (codec := Sample.codec) 1 (Some "tok:bob") Sample.db
    = (Raise (HTTPException 404 "User not found"),
       mkSession [Sample.alice; Sample.bob] [QueryFirst 1 "bob"])
  ∧ delete_user_me (codec := Sample.codec) (engine := Sample.engine)
      1 (Some "tok:bob") Sample.db
    = (Raise (HTTPException 404 "User not found"),
       mkSession [Sample.alice; Sample.bob] [QueryFirst 1 "bob"]).
Proof.
  destruct (ownership_rule (codec := Sample.codec) (engine := Sample.engine)
              Sample.db "tok:bob" {[ "sub" := "bob" ]} "bob" eq_refl eq_refl)
    as [H _].
  destruct (H Sample.alice sample_unique_ids) as (Hr & _ & Hd).
  - apply list_elem_of_here.
  - discriminate.
  - split; [exact Hr | exact Hd].
Defined.

(** C2 on the sample table: a credential the codec does not decode. *)
Lemma invalid_token_rejected_witness :
  ∃ d, register (codec := Sample.codec) (service := Sample.service)
         (UserCreate.mk "carol" "c@x.com" "p3") (Some "garbage") Sample.db
       = (Raise (HTTPException 401 d), Sample.db).
Proof.
  destruct (invalid_token_rejected (codec := Sample.codec)
              (service := Sample.service) (engine := Sample.engine)
              (Some "garbage") Sample.db eq_refl) as [H _].
  apply H.
Defined.

(** C3 on the sample table: a valid token of a subject that owns no row. *)
Lemma list_all_returns_every_user_witness :
  ∃ out,
    read_users_all (codec := Sample.codec) (Some "tok:zed") Sample.db
      = (Return out, mkSession [Sample.alice; Sample.bob] [QueryAll])
    ∧ out = [UserOut.mk 1 "alice" "a@x.com"; UserOut.mk 2 "bob" "b@x.com"].
Proof.
  destruct (list_all_returns_every_user (codec := Sample.codec)
              "tok:zed" Sample.db eq_refl) as (out & Hrun & Hout & _).
  exists out. split; [exact Hrun | exact Hout].
Defined.

(** C5 on the sample table: carol registers with alice's token. *)
Lemma register_contract_witness :
  register (codec := Sample.codec) (service := Sample.service)
    (UserCreate.mk "carol" "c@x.com" "p3") (Some "tok:alice") Sample.db
  = (Return (UserResponse.mk "tok:carol" "bearer" "User registered successfully"
               (<[ "id" := "3" ]>
                  (<[ "username" := "carol" ]> {[ "email" := "c@x.com" ]}))),
     mkSession [Sample.alice; Sample.bob; User.mk 3 "carol" "c@x.com" "h(p3)"]
       [CreateUser "carol"; IssueToken {[ "sub" := "carol" ]}]).
Proof.
  destruct (register_contract (codec := Sample.codec)
              Sample.hash_password Sample.next_id Sample.authenticate
              (UserCreate.mk "carol" "c@x.com" "p3") "tok:alice" Sample.db
              eq_refl) as [H _].
  exact (H sample_fresh_name).
Defined.

(** C6 on the sample table: alice renames herself. *)
Lemma update_frame_witness :
  ∃ (i : nat) (U : User.t),
    rows Sample.db !! i = Some U
    ∧ User.id U = 1%Z
    ∧ [User.mk 1 "al" "al@x.com" "h(p1)"; Sample.bob]
      = <[ i := User.mk 1 "al" "al@x.com" (User.password_hash U) ]> (rows Sample.db).
Proof.
  destruct (update_frame (codec := Sample.codec) (engine := Sample.engine)
              1 (UserCreate.mk "al" "al@x.com" "ignored") (Some "tok:alice")
              Sample.db (UserOut.mk 1 "al" "al@x.com")
              (mkSession [User.mk 1 "al" "al@x.com" "h(p1)"; Sample.bob]
                 [QueryFirst 1 "alice"; Commit; Refresh 1])
              sample_unique_ids eq_refl)
    as (i & U & Hi & Hid & Hrows & _).
  exists i, U. split; [exact Hi | split; [exact Hid | exact Hrows]].
Defined.

(** C7 on the sample table: alice deletes her record twice. *)
Lemma delete_twice_not_found_witness :
  ∃ sub,
    delete_user_me (codec := Sample.codec) (engine := Sample.engine)
      1 (Some "tok:alice") (mkSession [Sample.bob] [QueryFirst 1 "alice"; Commit])
    = (Raise (HTTPException 404 "User not found"),
       mkSession [Sample.bob]
         ([QueryFirst 1 "alice"; Commit] ++ [QueryFirst 1 sub])).
Proof.
  destruct (delete_twice_not_found (codec := Sample.codec)
              (engine := Sample.engine) 1 (Some "tok:alice") Sample.db
              {[ "message" := "User deleted successfully" ]}
              (mkSession [Sample.bob] [QueryFirst 1 "alice"; Commit]) eq_refl)
    as (token & payload & sub & Ha & Hd & Hs & H).
  exists sub. injection Ha as <-. exact (H "tok:alice" payload Hd Hs).
Defined.

(** C10 on the sample table: the id 3 comes back as the string "3". *)
Lemma register_id_is_string_witness :
  ∃ db_user : User.t,
    (∃ l, create_user (UserService := Sample.service)
            (UserCreate.mk "carol" "c@x.com" "p3") (rows Sample.db)
          = inr (db_user, l)
          ∧ [Sample.alice; Sample.bob; User.mk 3 "carol" "c@x.com" "h(p3)"] = l)
    ∧ (<[ "id" := "3" ]>
         (<[ "username" := "carol" ]> {[ "email" := "c@x.com" ]})
       : gmap string string) !! "id" = Some (str (User.id db_user)).
Proof.
  destruct (register_id_is_string (codec := Sample.codec)
              (service := Sample.service)
              (UserCreate.mk "carol" "c@x.com" "p3") (Some "tok:alice") Sample.db
              (UserResponse.mk "tok:carol" "bearer" "User registered successfully"
                 (<[ "id" := "3" ]>
                    (<[ "username" := "carol" ]> {[ "email" := "c@x.com" ]})))
              (mkSession [Sample.alice; Sample.bob;
                          User.mk 3 "carol" "c@x.com" "h(p3)"]
                 [CreateUser "carol"; IssueToken {[ "sub" := "carol" ]}])
              eq_refl) as (db_user & Hc & Hid & _).
  exists db_user. split; [exact Hc | exact Hid].
Defined.

(** ** Further instances *)

Example login_wrong_password :
  login (codec := Sample.codec) (service := Sample.service)
    (UserLogin.mk "alice" "wrong") Sample.db
  = (Raise (HTTPException 401 "Invalid credentials"),
     mkSession [Sample.alice; Sample.bob] [Authenticate "alice"]).
Proof. reflexivity. Qed.

Example login_right_password :
  fst (login (codec := Sample.codec) (service := Sample.service)
         (UserLogin.mk "alice" "p1") Sample.db)
  = Return (<[ "access_token" := "tok:alice" ]> {[ "token_type" := "bearer" ]}).
Proof. reflexivity. Qed.

Example register_taken_name :
  register (codec := Sample.codec) (service := Sample.service)
    (UserCreate.mk "alice" "a2@x.com" "p9") (Some "tok:bob") Sample.db
  = (Raise (HTTPException 409 "Conflict"),
     mkSession [Sample.alice; Sample.bob] [CreateUser "alice"]).
Proof. reflexivity. Qed.

Example get_own_record :
  fst (read_users_me (codec := Sample.codec) 2 (Some "tok:bob") Sample.db)
  = Return (UserOut.mk 2 "bob" "b@x.com").
Proof. reflexivity. Qed.

Example dispatch_numeric_id : dispatch GET ["7"] = Some ep_read_users_me.
Proof. reflexivity. Qed.

Example dispatch_head : dispatch HEAD ["7"] = None.
Proof. reflexivity. Qed.

Example get_ignores_hashes :
  fst (read_users_me (codec := Sample.codec) 1 (Some "tok:alice")
         (mkSession [User.mk 1 "alice" "a@x.com" "other"; Sample.bob] []))
  = fst (read_users_me (codec := Sample.codec) 1 (Some "tok:alice") Sample.db).
Proof. reflexivity. Qed.

Example str_samples : str 42 = "42" ∧ str (-7) = "-7" ∧ str 0 = "0".
Proof. by vm_compute. Qed.

(** ** Instances of the further properties *)

(** X1 on the sample table, with the token that names no subject. *)
Lemma token_without_subject_witness :
  read_users_me (codec := Sample.anonymous_codec) 1 (Some "anon") Sample.db
  = (Raise (KeyError "sub"), Sample.db).
Proof.
  destruct (token_without_subject (codec := Sample.anonymous_codec)
              (engine := Sample.engine) "anon" {[ "exp" := "0" ]} Sample.db
              eq_refl) as [H _].
  - intros Heq. apply (f_equal (λ m : gmap string string, m !! "exp")) in Heq.
    discriminate Heq.
  - reflexivity.
  - apply H.
Defined.

(** X2 on the sample table: alice reads her record. *)
Lemma owner_reaches_record_witness :
  read_users_me (codec := Sample.codec) 1 (Some "tok:alice") Sample.db
  = (Return (UserOut.mk 1 "alice" "a@x.com"),
     mkSession [Sample.alice; Sample.bob] [QueryFirst 1 "alice"]).
Proof.
  destruct (owner_reaches_record (codec := Sample.codec)
              (engine := Sample.engine) Sample.db "tok:alice"
              {[ "sub" := "alice" ]} Sample.alice eq_refl eq_refl
              sample_unique_ids) as [H _].
  - apply list_elem_of_here.
  - exact H.
Defined.

(** X4 on the sample table: ids stay unique after bob deletes his record. *)
Lemma handlers_keep_unique_ids_witness : unique_ids [Sample.alice].
Proof.
  destruct (handlers_keep_unique_ids (codec := Sample.codec)
              (engine := Sample.engine) Sample.db sample_unique_ids)
    as (_ & _ & H & _).
  exact (H 2%Z (Some "tok:bob")
           (Return {[ "message" := "User deleted successfully" ]})
           (mkSession [Sample.alice] [QueryFirst 2 "bob"; Commit]) eq_refl).
Defined.

(** X5 on the sample table: alice renames herself and is locked out. *)
Lemma update_then_get_witness :
  ∃ sub,
    read_users_me (codec := Sample.codec) 1 (Some "tok:alice")
      (mkSession [User.mk 1 "al" "al@x.com" "h(p1)"; Sample.bob]
         [QueryFirst 1 "alice"; Commit; Refresh 1])
    = (Raise (HTTPException 404 "User not found"),
       mkSession [User.mk 1 "al" "al@x.com" "h(p1)"; Sample.bob]
         ([QueryFirst 1 "alice"; Commit; Refresh 1] ++ [QueryFirst 1 sub])).
Proof.
  destruct (update_then_get (codec := Sample.codec) (engine := Sample.engine)
              1 (UserCreate.mk "al" "al@x.com" "ignored") "tok:alice"
              Sample.db (UserOut.mk 1 "al" "al@x.com")
              (mkSession [User.mk 1 "al" "al@x.com" "h(p1)"; Sample.bob]
                 [QueryFirst 1 "alice"; Commit; Refresh 1])
              sample_unique_ids eq_refl)
    as (payload & sub & Hd & Hs & _ & H).
  exists sub. apply H. injection Hd as <-. injection Hs as <-. discriminate.
Defined.

(** X6 on the sample table: bob deletes his record. *)
Lemma delete_frame_witness :
  ∃ (i : nat) (U : User.t),
    rows Sample.db !! i = Some U
    ∧ User.id U = 2%Z
    ∧ [Sample.alice] = delete i (rows Sample.db).
Proof.
  destruct (delete_frame (codec := Sample.codec) (engine := Sample.engine)
              2 (Some "tok:bob") Sample.db
              {[ "message" := "User deleted successfully" ]}
              (mkSession [Sample.alice] [QueryFirst 2 "bob"; Commit])
              sample_unique_ids eq_refl)
    as (i & U & _ & _ & Hi & Hid & _ & _ & _ & Hrows & _).
  exists i, U. split; [exact Hi | split; [exact Hid | exact Hrows]].
Defined.

(** X7 on the sample table: after bob's delete, id 2 is gone. *)
Lemma deleted_record_unreachable_witness :
  ∃ outs,
    read_users_all (codec := Sample.codec) (Some "tok:bob")
      (mkSession [Sample.alice] [QueryFirst 2 "bob"; Commit])
    = (Return outs,
       mkSession [Sample.alice] ([QueryFirst 2 "bob"; Commit] ++ [QueryAll]))
    ∧ ∀ o, o ∈ outs → UserOut.id o ≠ 2%Z.
Proof.
  destruct (deleted_record_unreachable (codec := Sample.codec)
              (engine := Sample.engine) 2 "tok:bob" Sample.db
              {[ "message" := "User deleted successfully" ]}
              (mkSession [Sample.alice] [QueryFirst 2 "bob"; Commit]) eq_refl)
    as (sub & _ & _ & H).
  exact H.
Defined.

(** X8 on the sample table: alice's and bob's tokens list the same. *)
Lemma caller_identity_irrelevant_witness :
  read_users_all (codec := Sample.codec) (Some "tok:alice") Sample.db
  = read_users_all (codec := Sample.codec) (Some "tok:bob") Sample.db.
Proof.
  destruct (caller_identity_irrelevant (codec := Sample.codec)
              (service := Sample.service) "tok:alice" "tok:bob" Sample.db
              eq_refl eq_refl) as [_ H].
  exact H.
Defined.

(** X9 on the sample table: alice logs in and reads her record. *)
Lemma login_then_get_witness :
  ∃ token s',
    login (codec := Sample.codec) (service := Sample.service)
      (UserLogin.mk "alice" "p1") Sample.db
    = (Return (<[ "access_token" := token ]> {[ "token_type" := "bearer" ]}), s')
    ∧ rows s' = rows Sample.db
    ∧ read_users_me (codec := Sample.codec) 1 (Some token) s'
      = (Return (UserOut.mk 1 "alice" "a@x.com"),
         mkSession (rows Sample.db) (trace s' ++ [QueryFirst 1 "alice"])).
Proof.
  apply (login_then_get (codec := Sample.codec) (service := Sample.service)
           (UserLogin.mk "alice" "p1") Sample.db Sample.alice
           {[ "sub" := "alice" ]} eq_refl).
  - apply list_elem_of_here.
  - exact sample_unique_ids.
  - reflexivity.
  - reflexivity.
Defined.

Lemma sample_unique_ids_after_register :
  unique_ids [Sample.alice; Sample.bob; User.mk 3 "carol" "c@x.com" "h(p3)"].
Proof. apply (bool_decide_unpack _). by vm_compute. Qed.

(** X10 on the sample table: carol registers and reads her record. *)
Lemma register_then_get_witness :
  ∃ o s'',
    read_users_me (codec := Sample.codec) 3 (Some "tok:carol")
      (mkSession [Sample.alice; Sample.bob; User.mk 3 "carol" "c@x.com" "h(p3)"]
         [CreateUser "carol"; IssueToken {[ "sub" := "carol" ]}])
    = (Return o, s'')
    ∧ rows s'' = [Sample.alice; Sample.bob; User.mk 3 "carol" "c@x.com" "h(p3)"]
    ∧ (<[ "id" := "3" ]> (<[ "username" := "carol" ]> {[ "email" := "c@x.com" ]})
       : gmap string string)
      = <[ "id" := str (UserOut.id o) ]>
          (<[ "username" := UserOut.username o ]>
             {[ "email" := UserOut.email o ]}).
Proof.
  apply (register_then_get (codec := Sample.codec) (service := Sample.service)
           (UserCreate.mk "carol" "c@x.com" "p3") (Some "tok:alice") Sample.db
           (UserResponse.mk "tok:carol" "bearer" "User registered successfully"
              (<[ "id" := "3" ]>
                 (<[ "username" := "carol" ]> {[ "email" := "c@x.com" ]})))
           (mkSession [Sample.alice; Sample.bob;
                       User.mk 3 "carol" "c@x.com" "h(p3)"]
              [CreateUser "carol"; IssueToken {[ "sub" := "carol" ]}])
           (User.mk 3 "carol" "c@x.com" "h(p3)")
           [Sample.alice; Sample.bob; User.mk 3 "carol" "c@x.com" "h(p3)"]
           {[ "sub" := "carol" ]} eq_refl eq_refl).
  - apply list_elem_of_further, list_elem_of_further, list_elem_of_here.
  - exact sample_unique_ids_after_register.
  - reflexivity.
  - reflexivity.
Defined.
